(** * Startup bootstrap of the desktop wallet: [core/launcher.cpp]

    A shallow embedding of [Core::Launcher] and of the helper class
    [FilteredCommandLineArguments], followed by the properties of the
    working-path resolution, the writability probe and the command-line
    handling.

    Qt and [lib_base] are libraries outside the repository.  Every call into
    them goes through the [Host] interface below; the launcher code is
    written once, over any implementation of that interface.  [Sim] is an
    executable implementation: a small file tree with per-node write
    permission.  [Crowded] is another: a data directory in which every name
    the probe can try is taken. *)

From Stdlib Require Import ZArith String Ascii List Lia DecimalString DecimalZ.
From stdpp Require Import base option list gmap strings.

Local Open Scope Z_scope.

(** ** Results of possibly failing calls *)

(** How a call of the embedded code can end. *)
Inductive outcome (A : Type) : Type :=
| Returns (a : A)   (* normal return *)
| ExpectsFailed     (* an [Expects(...)] precondition was violated *)
| Undefined         (* control left a value-returning function without [return] *)
| OutOfFuel.        (* the model's iteration budget ran out *)

Arguments Returns {A} a.
Arguments ExpectsFailed {A}.
Arguments Undefined {A}.
Arguments OutOfFuel {A}.

Definition bind {A B : Type} (m : outcome A) (k : A -> outcome B) : outcome B :=
  match m with
  | Returns a => k a
  | ExpectsFailed => ExpectsFailed
  | Undefined => Undefined
  | OutOfFuel => OutOfFuel
  end.

Notation "'let*' p := m 'in' k" := (bind m (fun p => k))
  (at level 10, p pattern, m at level 100, k at level 200).

(** ** Integers and strings as the code uses them *)

(** [std::numeric_limits<int>::max()] for the 32-bit [int] of every target. *)
Definition int_max : Z := 2147483647.

(** Two's-complement wrap of a 32-bit [int]. *)
Definition wrap_int (z : Z) : Z := (z + 2147483648) mod 4294967296 - 2147483648.

(** [std::clamp(v, lo, hi)]. *)
Definition clamp (v lo hi : Z) : Z :=
  if v <? lo then lo else if hi <? v then hi else v.

(** [QString::number(int)]: decimal digits, with a leading minus sign. *)
Definition QString_number (n : Z) : string :=
  NilZero.string_of_int (Z.to_int n).

(** [QString::isEmpty()]. *)
Definition isEmpty (s : string) : bool :=
  match s with
  | EmptyString => true
  | String _ _ => false
  end.

(** [QString::endsWith(QChar)]. *)
Fixpoint endsWith (s : string) (c : ascii) : bool :=
  match s with
  | EmptyString => false
  | String a rest =>
      match rest with
      | EmptyString => Ascii.eqb a c
      | String _ _ => endsWith rest c
      end
  end.

(** [QString::startsWith(QString)]. *)
Fixpoint startsWith (s prefix : string) {struct prefix} : bool :=
  match prefix with
  | EmptyString => true
  | String a prefix' =>
      match s with
      | EmptyString => false
      | String b s' => Ascii.eqb a b && startsWith s' prefix'
      end
  end.

(** The name the writability probe tries when its counter is [k]:
    [dataPath + "/temp" + QString::number(k)]. *)
Definition temp_path (dataPath : string) (k : Z) : string :=
  (dataPath +:+ "/temp") +:+ QString_number k.

(** ** [FilteredCommandLineArguments] *)

Module Filtered.

Definition kForwardArgumentCount : Z := 1.

(** A [char*] is [None] for [nullptr]. *)
Record FilteredCommandLineArguments := {
  _count : Z;
  _arguments : list (option string)
}.

(** [argv[i]]; the entry after the last argument is the null pointer. *)
Definition argv_at (argv : list string) (i : nat) : option string := argv !! i.

(** [for (auto i = 0; i != _count; ++i) _arguments[i] = argv[i];]
    with [n] iterations left. *)
Fixpoint copy_loop (n : nat) (i : nat) (argv : list string)
    (arguments : list (option string)) : list (option string) :=
  match n with
  | O => arguments
  | S n' => copy_loop n' (S i) argv (<[i := argv_at argv i]> arguments)
  end.

(** The constructor. *)
Definition make (argc : Z) (argv : list string) : FilteredCommandLineArguments :=
  let count := clamp argc 0 kForwardArgumentCount in
  {| _count := count;
     _arguments :=
       copy_loop (Z.to_nat count) 0 argv
         (replicate (Z.to_nat (kForwardArgumentCount + 1)) None) |}.

Definition count (f : FilteredCommandLineArguments) : Z := _count f.
Definition values (f : FilteredCommandLineArguments) : list (option string) :=
  _arguments f.

(** What the runtime reads: the first [count()] entries of [values()]. *)
Definition forwarded (f : FilteredCommandLineArguments) : list (option string) :=
  take (Z.to_nat (count f)) (values f).

End Filtered.

(** ** The host: Qt and platform calls *)

(** Compile-time configuration: which macros are defined. *)
Record BuildConfig := {
  Q_OS_MAC : bool;
  Q_OS_LINUX : bool;
  Q_OS_WIN : bool;
  OS_MAC_STORE : bool;
  OS_WIN_STORE : bool;
  _DEBUG : bool
}.

(** One of the four platform branches of [computeWorkingPathBase] is
    compiled in. *)
Definition supported (cfg : BuildConfig) : Prop :=
  Q_OS_MAC cfg || Q_OS_LINUX cfg || OS_WIN_STORE cfg || Q_OS_WIN cfg = true.

(** The calls the launcher makes into Qt and [lib_base], over a state [W] of
    the outside world.  Queries return a value; calls that may change the
    world also return the new world. *)
Class Host (W : Type) := {
  (* base::FromUtf8Safe *)
  FromUtf8Safe : string -> string;
  (* base::Platform::CurrentExecutablePath(argc, argv) *)
  CurrentExecutablePath : W -> Z -> list string -> string;
  (* QStandardPaths::writableLocation(QStandardPaths::AppDataLocation) *)
  writableLocation_AppDataLocation : W -> string;
  (* QDir(path).exists(), QDir().mkpath(path), QDir(path).absolutePath() *)
  QDir_exists : W -> string -> bool;
  QDir_mkpath : W -> string -> bool * W;
  QDir_absolutePath : W -> string -> string;
  (* QFileInfo(path): exists(), isSymLink(), symLinkTarget(),
     absoluteDir().absolutePath(), fileName() *)
  QFileInfo_exists : W -> string -> bool;
  QFileInfo_isSymLink : W -> string -> bool;
  QFileInfo_symLinkTarget : W -> string -> string;
  QFileInfo_absoluteDir_absolutePath : W -> string -> string;
  QFileInfo_fileName : W -> string -> string;
  (* QFile(path): open(QIODevice::WriteOnly), close(), remove(), exists() *)
  QFile_open_WriteOnly : W -> string -> bool * W;
  QFile_close : W -> string -> W;
  QFile_remove : W -> string -> bool * W;
  QFile_exists : W -> string -> bool
}.

(** ** [Core::Launcher] *)

Record Launcher := {
  _argc : Z;
  _argv : list string;
  _arguments : list string;
  _executablePath : string;
  _executableName : string;
  _appDataPath : string;
  _workingPath : string;
  _openedUrl : string
}.

(** [Launcher::Create] / the constructor: only [_argc] and [_argv] are given,
    every [QString] and the [QStringList] start empty. *)
Definition Create (argc : Z) (argv : list string) : Launcher :=
  {| _argc := argc; _argv := argv; _arguments := [];
     _executablePath := ""; _executableName := ""; _appDataPath := "";
     _workingPath := ""; _openedUrl := "" |}.

Definition set_arguments (v : list string) (L : Launcher) : Launcher :=
  {| _argc := _argc L; _argv := _argv L; _arguments := v;
     _executablePath := _executablePath L; _executableName := _executableName L;
     _appDataPath := _appDataPath L; _workingPath := _workingPath L;
     _openedUrl := _openedUrl L |}.

Definition set_executable (path name : string) (L : Launcher) : Launcher :=
  {| _argc := _argc L; _argv := _argv L; _arguments := _arguments L;
     _executablePath := path; _executableName := name;
     _appDataPath := _appDataPath L; _workingPath := _workingPath L;
     _openedUrl := _openedUrl L |}.

Definition set_appDataPath (v : string) (L : Launcher) : Launcher :=
  {| _argc := _argc L; _argv := _argv L; _arguments := _arguments L;
     _executablePath := _executablePath L; _executableName := _executableName L;
     _appDataPath := v; _workingPath := _workingPath L;
     _openedUrl := _openedUrl L |}.

Definition set_workingPath (v : string) (L : Launcher) : Launcher :=
  {| _argc := _argc L; _argv := _argv L; _arguments := _arguments L;
     _executablePath := _executablePath L; _executableName := _executableName L;
     _appDataPath := _appDataPath L; _workingPath := v;
     _openedUrl := _openedUrl L |}.

Definition set_openedUrl (v : string) (L : Launcher) : Launcher :=
  {| _argc := _argc L; _argv := _argv L; _arguments := _arguments L;
     _executablePath := _executablePath L; _executableName := _executableName L;
     _appDataPath := _appDataPath L; _workingPath := _workingPath L;
     _openedUrl := v |}.

(** The range-for of [Launcher::processArguments]: [nextUrl] and
    [_openedUrl] are the state carried across the arguments. *)
Fixpoint processArguments_loop (nextUrl : bool) (openedUrl : string)
    (arguments : list string) : string :=
  match arguments with
  | [] => openedUrl
  | argument :: rest =>
      if nextUrl then processArguments_loop nextUrl argument rest
      else if String.eqb argument "--" then processArguments_loop true openedUrl rest
      else processArguments_loop nextUrl openedUrl rest
  end.

Definition processArguments (L : Launcher) : Launcher :=
  set_openedUrl (processArguments_loop false (_openedUrl L) (_arguments L)) L.

(** [QStringList::join(QChar)]. *)
Fixpoint join (sep : string) (l : list string) : string :=
  match l with
  | [] => EmptyString
  | a :: rest =>
      match rest with
      | [] => a
      | _ :: _ => a +:+ (sep +:+ join sep rest)
      end
  end.

(** [Launcher::argumentsString]. *)
Definition argumentsString (L : Launcher) : string := join " " (_arguments L).

Section WithHost.

Context {W : Type} `{Host W}.

(** [Launcher::readArguments]: [argv[0 .. argc)] decoded in order. *)
Fixpoint readArguments_loop (n : nat) (i : nat) (argv : list string)
    (result : list string) : outcome (list string) :=
  match n with
  | O => Returns result
  | S n' =>
      match argv !! i with
      | Some a => readArguments_loop n' (S i) argv (result ++ [FromUtf8Safe a])
      | None => Undefined
      end
  end.

Definition readArguments (argc : Z) (argv : list string) : outcome (list string) :=
  if argc <? 0 then ExpectsFailed
  else readArguments_loop (Z.to_nat argc) 0 argv [].

(** [Launcher::initExecutablePath]. A [QFileInfo] is its path. *)
Definition initExecutablePath (L : Launcher) (w : W) : Launcher :=
  let path := CurrentExecutablePath w (_argc L) (_argv L) in
  if isEmpty path then L
  else
    let info := if QFileInfo_isSymLink w path
                then QFileInfo_symLinkTarget w path else path in
    if negb (QFileInfo_exists w info) then L
    else
      let dir := QFileInfo_absoluteDir_absolutePath w info in
      set_executable (if endsWith dir "/" then dir else dir +:+ "/")
                     (QFileInfo_fileName w info) L.

(** [Launcher::initAppDataPath]. *)
Definition initAppDataPath (L : Launcher) (w : W) : Launcher :=
  let path := writableLocation_AppDataLocation w in
  let absolute := QDir_absolutePath w path in
  set_appDataPath (if endsWith absolute "/" then absolute else absolute +:+ "/") L.

(** [Launcher::prepareSettings]. *)
Definition prepareSettings (L : Launcher) (w : W) : Launcher :=
  processArguments (initAppDataPath (initExecutablePath L w) w).

(** [Launcher::checkPortablePath]. *)
Definition checkPortablePath (L : Launcher) (w : W) : string :=
  let portable := _executablePath L +:+ "WalletForcePortable" in
  if QDir_exists w portable then portable +:+ "/" else "".

(** The [while (true)] loop of [Launcher::canWorkInExecutablePath];
    [index] is the counter before [++index]. *)
Fixpoint probe_loop (fuel : nat) (dataPath : string) (w : W) (index : Z)
    : outcome (bool * W) :=
  match fuel with
  | O => OutOfFuel
  | S fuel' =>
      let index := wrap_int (index + 1) in
      let temp := (dataPath +:+ "/temp") +:+ QString_number index in
      let '(opened, w1) := QFile_open_WriteOnly w temp in
      if opened then
        let w2 := QFile_close w1 temp in
        let '(_, w3) := QFile_remove w2 temp in
        Returns (true, w3)
      else if negb (QFile_exists w1 temp) then Returns (false, w1)
      else if index =? int_max then Returns (false, w1)
      else probe_loop fuel' dataPath w1 index
  end.

(** [Launcher::canWorkInExecutablePath]. *)
Definition canWorkInExecutablePath (fuel : nat) (L : Launcher) (w : W)
    : outcome (bool * W) :=
  let dataPath := _executablePath L +:+ "data" in
  let '(failed, w1) :=
    if negb (QDir_exists w dataPath)
    then (let '(made, w') := QDir_mkpath w dataPath in (negb made, w'))
    else (false, w) in
  if failed then Returns (false, w1)
  else if QFileInfo_exists w1 (dataPath +:+ "/salt") then Returns (true, w1)
  else probe_loop fuel dataPath w1 0.

(** [Launcher::computeWorkingPathBase]; the preprocessor branches are
    selected by [cfg]. *)
Definition computeWorkingPathBase (cfg : BuildConfig) (fuel : nat)
    (L : Launcher) (w : W) : outcome (string * W) :=
  let path := checkPortablePath L w in
  if negb (isEmpty path) then Returns (path, w)
  else if Q_OS_MAC cfg || Q_OS_LINUX cfg then
    if _DEBUG cfg && negb (OS_MAC_STORE cfg)
    then Returns (_executablePath L, w)
    else Returns (_appDataPath L, w)
  else if OS_WIN_STORE cfg then
    if _DEBUG cfg
    then Returns (_executablePath L, w)
    else Returns (_appDataPath L, w)
  else if Q_OS_WIN cfg then
    let* (ok, w') := canWorkInExecutablePath fuel L w in
    if ok then Returns (_executablePath L, w')
    else Returns (_appDataPath L, w')
  else Undefined.

(** [Launcher::initWorkingPath]. *)
Definition initWorkingPath (cfg : BuildConfig) (fuel : nat)
    (L : Launcher) (w : W) : outcome (Launcher * W) :=
  let* (base, w') := computeWorkingPathBase cfg fuel L w in
  Returns (set_workingPath (base +:+ "data/") L, w').

(** [Launcher::init] (the calls that only configure the UI toolkit are
    left out). *)
Definition init (cfg : BuildConfig) (fuel : nat) (L : Launcher) (w : W)
    : outcome (Launcher * W) :=
  let* arguments := readArguments (_argc L) (_argv L) in
  let L1 := set_arguments arguments L in
  let L2 := prepareSettings L1 w in
  initWorkingPath cfg fuel L2 w.

End WithHost.

(** ** [Sim]: an executable host

    A file tree keyed by path.  An entry is a directory or a regular file,
    each with its write permission, or a symbolic link with its target.
    Creating or removing an entry needs write permission on its parent
    directory; opening an existing file for writing needs write permission
    on the file.  Removal is also refused for the entries in [held] (owned
    by someone else in a sticky directory, or kept open by another
    process).  A symbolic link is followed where the system call follows
    it: [exists], [open] and the parent checks go through links, [remove]
    and [isSymLink] look at the link itself.  Paths are absolute or
    relative to one fixed current directory, the directory part of a path
    is taken literally, and link targets are written as full paths. *)

Module Sim.

Inductive node : Type :=
| Dir (writable : bool)
| File (writable : bool)
| Link (target : string).

Record world := {
  nodes : gmap string node;
  held : gset string;  (* entries whose removal is refused *)
  exe_path : string;   (* what the platform reports as the running binary *)
  app_data : string    (* the per-user application-data location *)
}.

Definition set_nodes (m : gmap string node) (w : world) : world :=
  {| nodes := m; held := held w; exe_path := exe_path w; app_data := app_data w |}.

Fixpoint has_slash (s : string) : bool :=
  match s with
  | EmptyString => false
  | String c rest => Ascii.eqb c "/" || has_slash rest
  end.

(** The text before the last separator (empty when there is none). *)
Fixpoint dirname (s : string) : string :=
  match s with
  | EmptyString => EmptyString
  | String c rest => if has_slash rest then String c (dirname rest) else EmptyString
  end.

(** The text after the last separator. *)
Fixpoint basename (s : string) : string :=
  match s with
  | EmptyString => EmptyString
  | String c rest => if has_slash s then basename rest else s
  end.

(** Follow symbolic links from [p], at most [n] of them: the path reached
    and the entry there ([None] for a dangling link or a missing entry, a
    link when there are too many levels). *)
Fixpoint follow (n : nat) (m : gmap string node) (p : string)
    : string * option node :=
  match m !! p with
  | Some (Link t) =>
      match n with
      | O => (p, Some (Link t))
      | S n' => follow n' m t
      end
  | e => (p, e)
  end.

Definition symloop_max : nat := 40.

Definition stat (m : gmap string node) (p : string) : string * option node :=
  follow symloop_max m p.

Definition is_dir (m : gmap string node) (p : string) : bool :=
  match (stat m p).2 with
  | Some (Dir _) => true
  | _ => false
  end.

Definition writable_dir (m : gmap string node) (p : string) : bool :=
  match (stat m p).2 with
  | Some (Dir true) => true
  | _ => false
  end.

Definition present (m : gmap string node) (p : string) : bool :=
  match (stat m p).2 with
  | Some (Dir _) | Some (File _) => true
  | _ => false
  end.

(** Create [p] and its missing ancestors, nearest existing ancestor first.
    An entry at [p] that is not a directory, a dangling link included, makes
    it fail. *)
Fixpoint mkpath_go (n : nat) (m : gmap string node) (p : string)
    : bool * gmap string node :=
  if is_dir m p then (true, m)
  else
    match m !! p with
    | Some _ => (false, m)
    | None =>
        match n with
        | O => (false, m)
        | S n' =>
            let '(ok, m1) := mkpath_go n' m (dirname p) in
            if ok && writable_dir m1 (dirname p)
            then (true, <[p := Dir true]> m1)
            else (false, m1)
        end
    end.

Definition mkpath (w : world) (p : string) : bool * world :=
  let '(ok, m) := mkpath_go (String.length p) (nodes w) p in
  (ok, set_nodes m w).

(** Opening for writing follows links: an existing writable file is opened
    (and truncated), a missing one is created where the links lead. *)
Definition open_WriteOnly (w : world) (p : string) : bool * world :=
  let '(q, e) := stat (nodes w) p in
  match e with
  | Some (File true) => (true, w)
  | Some _ => (false, w)
  | None =>
      if writable_dir (nodes w) (dirname q)
      then (true, set_nodes (<[q := File true]> (nodes w)) w)
      else (false, w)
  end.

(** Removing unlinks the entry at [p] itself, a link included. *)
Definition remove (w : world) (p : string) : bool * world :=
  match nodes w !! p with
  | Some (File _) | Some (Link _) =>
      if writable_dir (nodes w) (dirname p) && negb (bool_decide (p ∈ held w))
      then (true, set_nodes (delete p (nodes w)) w)
      else (false, w)
  | _ => (false, w)
  end.

Definition is_link (m : gmap string node) (p : string) : bool :=
  match m !! p with
  | Some (Link _) => true
  | _ => false
  end.

Definition link_target (m : gmap string node) (p : string) : string :=
  match m !! p with
  | Some (Link t) => t
  | _ => EmptyString
  end.

#[global] Instance host : Host world := {|
  FromUtf8Safe := fun s => s;
  CurrentExecutablePath := fun w _ _ => exe_path w;
  writableLocation_AppDataLocation := app_data;
  QDir_exists := fun w p => is_dir (nodes w) p;
  QDir_mkpath := mkpath;
  QDir_absolutePath := fun _ p => p;
  QFileInfo_exists := fun w p => present (nodes w) p;
  QFileInfo_isSymLink := fun w p => is_link (nodes w) p;
  QFileInfo_symLinkTarget := fun w p => link_target (nodes w) p;
  QFileInfo_absoluteDir_absolutePath := fun _ p => dirname p;
  QFileInfo_fileName := fun _ p => basename p;
  QFile_open_WriteOnly := open_WriteOnly;
  QFile_close := fun w _ => w;
  QFile_remove := remove;
  QFile_exists := fun w p => present (nodes w) p
|}.

(** An installation under [/opt/wallet], owned by the user. *)
Definition installed : gmap string node :=
  list_to_map
    [ ("", Dir false); ("/opt", Dir false); ("/opt/wallet", Dir true);
      ("/opt/wallet/Wallet", File false) ].

Definition desktop (m : gmap string node) : world :=
  {| nodes := m; held := ∅; exe_path := "/opt/wallet/Wallet";
     app_data := "/home/user/.local/share/Gram Wallet" |}.

(** The same installation after the binary was deleted while running. *)
Definition binary_deleted : world :=
  desktop (delete "/opt/wallet/Wallet" installed).

(** Started through a symbolic link whose target is gone. *)
Definition dangling_link : world :=
  {| nodes := <["/usr/local/bin/wallet" := Link "/opt/wallet/Wallet"]>
                (delete "/opt/wallet/Wallet" installed);
     held := ∅;
     exe_path := "/usr/local/bin/wallet";
     app_data := "/home/user/.local/share/Gram Wallet" |}.

(** Started through a link to a link: [/usr/local/bin/wallet] points to
    [/opt/alt/wallet-current], which points to the binary. *)
Definition link_chain : world :=
  {| nodes := <["/opt/alt/wallet-current" := Link "/opt/wallet/Wallet"]>
                (<["/usr/local/bin/wallet" := Link "/opt/alt/wallet-current"]>
                   installed);
     held := ∅;
     exe_path := "/usr/local/bin/wallet";
     app_data := "/home/user/.local/share/Gram Wallet" |}.

(** With the portable marker next to the binary, in a directory the user
    may not write to. *)
Definition portable : world :=
  desktop (<["/opt/wallet/WalletForcePortable" := Dir true]>
            (<["/opt/wallet" := Dir false]> installed)).


(** With a data directory in which [temp1] is a symbolic link to a file
    that does not exist, [/opt/wallet/elsewhere]. *)
Definition dangling_temp : world :=
  desktop (<["/opt/wallet/data/temp1" := Link "/opt/wallet/elsewhere"]>
            (<["/opt/wallet/data" := Dir true]> installed)).

(** With a data directory in which the name [temp1] cannot be removed. *)
Definition held_temp : world :=
  {| nodes := <["/opt/wallet/data" := Dir true]> installed;
     held := {[ "/opt/wallet/data/temp1" ]};
     exe_path := "/opt/wallet/Wallet";
     app_data := "/home/user/.local/share/Gram Wallet" |}.

(** With a data directory holding the sentinel [salt]. *)
Definition salted : world :=
  desktop (<["/opt/wallet/data/salt" := File true]>
            (<["/opt/wallet/data" := Dir true]> installed)).

(** Installed where the user may not write (a system directory). *)
Definition read_only_install : world :=
  desktop (<["/opt/wallet" := Dir false]> installed).

End Sim.

(** ** [Crowded]: a host without state

    The executable path cannot be determined, a directory [data] exists in
    the current directory, and every name in it that starts with [temp] is
    taken by an entry that cannot be opened for writing. *)

Module Crowded.

#[global] Instance host : Host unit := {|
  FromUtf8Safe := fun s => s;
  CurrentExecutablePath := fun _ _ _ => EmptyString;
  writableLocation_AppDataLocation := fun _ => "/home/user/.local/share/Gram Wallet";
  QDir_exists := fun _ p => String.eqb p "data";
  QDir_mkpath := fun w p => (String.eqb p "data", w);
  QDir_absolutePath := fun _ p => p;
  QFileInfo_exists := fun _ p => startsWith p "data/temp";
  QFileInfo_isSymLink := fun _ _ => false;
  QFileInfo_symLinkTarget := fun _ _ => EmptyString;
  QFileInfo_absoluteDir_absolutePath := fun _ p => Sim.dirname p;
  QFileInfo_fileName := fun _ p => Sim.basename p;
  QFile_open_WriteOnly := fun w _ => (false, w);
  QFile_close := fun w _ => w;
  QFile_remove := fun w _ => (false, w);
  QFile_exists := fun _ p => startsWith p "data/temp"
|}.

End Crowded.

(** Build configurations used in the examples. *)
Definition mk_config (mac linux win mac_store win_store debug : bool) : BuildConfig :=
  {| Q_OS_MAC := mac; Q_OS_LINUX := linux; Q_OS_WIN := win;
     OS_MAC_STORE := mac_store; OS_WIN_STORE := win_store; _DEBUG := debug |}.

Definition linux_debug : BuildConfig := mk_config false true false false false true.
Definition linux_release : BuildConfig := mk_config false true false false false false.
Definition mac_store_debug : BuildConfig := mk_config true false false true false true.
Definition windows_release : BuildConfig := mk_config false false true false false false.

(** The launcher of a one-argument invocation as [init] has it after
    [readArguments] and [prepareSettings]. *)
Definition prepared (w : Sim.world) : Launcher :=
  prepareSettings (set_arguments ["Wallet"] (Create 1 ["Wallet"])) w.

(** * Properties *)

(** ** Command-line arguments *)

Section Arguments.

Lemma processArguments_loop_true (url : string) (arguments : list string) :
  processArguments_loop true url arguments = default url (last arguments).
Proof.
  revert url. induction arguments as [|a rest IH]; intros url; [done|].
  cbn [processArguments_loop]. rewrite IH, last_cons.
  by destruct (last rest).
Qed.

Lemma processArguments_loop_skip (url : string) (pre rest : list string) :
  "--" ∉ pre ->
  processArguments_loop false url (pre ++ rest)
  = processArguments_loop false url rest.
Proof.
  induction pre as [|a pre IH]; intros Hpre; [done|].
  apply not_elem_of_cons in Hpre as [Hne Hpre].
  cbn [app processArguments_loop].
  destruct (String.eqb_spec a "--") as [->|_]; [done|].
  by apply IH.
Qed.

Lemma processArguments_split (L0 : Launcher) (pre post : list string) :
  "--" ∉ pre ->
  _openedUrl (processArguments (set_arguments (pre ++ "--" :: post) L0))
  = default (_openedUrl L0) (last post).
Proof.
  intros Hpre. cbn. rewrite processArguments_loop_skip by done.
  cbn. apply processArguments_loop_true.
Qed.

(** C4: with the arguments split at the first [--], the opened URL after
    [processArguments] is the last argument behind it (and the previous
    value when nothing follows); with no [--] at all it keeps its previous
    value. *)
Theorem processArguments_last_after_delimiter
    (L0 : Launcher) (pre post : list string) :
  "--" ∉ pre ->
  _openedUrl (processArguments (set_arguments (pre ++ "--" :: post) L0))
  = default (_openedUrl L0) (last post)
  /\ _openedUrl (processArguments (set_arguments pre L0)) = _openedUrl L0.
Proof.
  intros Hpre. split; [by apply processArguments_split|].
  cbn. rewrite <- (app_nil_r pre).
  by rewrite processArguments_loop_skip.
Qed.

Lemma processArguments_last_after_delimiter_witness :
("--" ∉ ["app"])
  /\ _openedUrl (processArguments
       (set_arguments ["app"; "--"; "first"; "second"] (Create 4 [])))
     = "second"
  /\ _openedUrl (processArguments (set_arguments ["app"] (Create 1 []))) = "".
Proof.
  assert (Hpre : "--" ∉ ["app"]) by (apply (bool_decide_unpack _); reflexivity).
  split; [exact Hpre|].
  split.
  - exact (proj1 (processArguments_last_after_delimiter
                    (Create 4 []) ["app"] ["first"; "second"] Hpre)).
  - exact (proj2 (processArguments_last_after_delimiter
                    (Create 1 []) ["app"] [] Hpre)).
Defined.

(** C10: only the first [--] is a delimiter.  Whatever argument [a] ends
    the list behind it, a further [--] included, becomes the opened URL;
    hence some argument list yields the opened URL [--]. *)
Theorem processArguments_later_delimiter_is_value
    (L0 : Launcher) (pre post : list string) (a : string) :
  "--" ∉ pre ->
  _openedUrl (processArguments (set_arguments (pre ++ "--" :: post ++ [a]) L0)) = a
  /\ exists arguments : list string,
       _openedUrl (processArguments (set_arguments arguments L0)) = "--".
Proof.
  intros Hpre.
  assert (Hlast : forall x : string,
    _openedUrl (processArguments (set_arguments (pre ++ "--" :: post ++ [x]) L0)) = x).
  { intros x. rewrite processArguments_split by done. by rewrite last_snoc. }
  split; [apply Hlast|].
  exists (pre ++ "--" :: post ++ ["--"]). apply Hlast.
Qed.

Lemma processArguments_later_delimiter_is_value_witness :
("--" ∉ ["app"])
  /\ _openedUrl (processArguments
       (set_arguments ["app"; "--"; "tonwallet://pay/abc"; "--"] (Create 4 [])))
     = "--".
Proof.
  assert (Hpre : "--" ∉ ["app"]) by (apply (bool_decide_unpack _); reflexivity).
  split; [exact Hpre|].
  exact (proj1 (processArguments_later_delimiter_is_value
                  (Create 4 []) ["app"] ["tonwallet://pay/abc"] "--" Hpre)).
Defined.

End Arguments.

(** ** The filtered argument vector *)

Section FilteredArguments.

Import Filtered.

Lemma clamp_forward_count (argc : Z) :
  clamp argc 0 kForwardArgumentCount = Z.max 0 (Z.min argc 1).
Proof.
  unfold clamp, kForwardArgumentCount.
  destruct (Z.ltb_spec argc 0), (Z.ltb_spec 1 argc); lia.
Qed.

(** C5: the forwarded list has [min(argc, 1)] clamped into [0, 1] entries,
    which are the leading arguments in their order; with at least one
    argument it is exactly the executable path [argv[0]]. *)
Theorem filtered_arguments_prefix (argc : Z) (argv : list string) :
  (Z.to_nat argc <= length argv)%nat ->
  let f := make argc argv in
  count f = Z.max 0 (Z.min argc 1)
  /\ 0 <= count f <= 1
  /\ length (forwarded f) = Z.to_nat (count f)
  /\ forwarded f = Some <$> take (Z.to_nat (count f)) argv
  /\ (1 <= argc -> exists a, argv !! 0%nat = Some a /\ forwarded f = [Some a]).
Proof.
  intros Hlen f.
  assert (Hcount : count f = Z.max 0 (Z.min argc 1))
    by apply clamp_forward_count.
  destruct (Z.le_gt_cases argc 0) as [Hle|Hgt].
  - assert (Hzero : count f = 0) by lia.
    unfold forwarded. rewrite Hzero. cbn.
    repeat split; try lia; try done.
  - assert (Hone : count f = 1) by lia.
    destruct argv as [|a argv']; [cbn in Hlen; lia|].
    assert (Hfwd : forwarded f = [Some a]).
    { unfold forwarded, values. rewrite Hone.
      subst f. unfold make. cbn [_arguments].
      fold (count (make argc (a :: argv'))).
      replace (clamp argc 0 kForwardArgumentCount) with 1
        by (rewrite clamp_forward_count; lia).
      reflexivity. }
    rewrite Hfwd, Hone.
    repeat split; try lia; try done.
    intros _. by exists a.
Qed.

Lemma filtered_arguments_prefix_witness :
  (Z.to_nat 4 <= length ["app"; "--flag"; "--"; "tonwallet://pay/abc"])%nat
  /\ forwarded (make 4 ["app"; "--flag"; "--"; "tonwallet://pay/abc"])
     = [Some "app"].
Proof.
  assert (Hlen : (Z.to_nat 4 <= length ["app"; "--flag"; "--"; "tonwallet://pay/abc"])%nat)
    by (vm_compute; lia).
  split; [exact Hlen|].
  destruct (filtered_arguments_prefix 4 _ Hlen) as (_ & _ & _ & Hfwd & _).
  exact Hfwd.
Defined.

End FilteredArguments.

(** ** Strings *)

Lemma endsWith_append_char (s : string) (c : ascii) :
  endsWith (s +:+ String c EmptyString) c = true.
Proof.
  induction s as [|a s IH]; cbn.
  - apply Ascii.eqb_refl.
  - destruct s as [|b s']; [cbn; apply Ascii.eqb_refl|exact IH].
Qed.

Lemma isEmpty_append_char (s : string) (c : ascii) :
  isEmpty (s +:+ String c EmptyString) = false.
Proof. by destruct s. Qed.

Lemma isEmpty_true (s : string) : isEmpty s = true <-> s = EmptyString.
Proof. by destruct s. Qed.

(** The normalisation used for both directories: append a separator unless
    one is already there. *)
Lemma endsWith_normalised (dir : string) :
  endsWith (if endsWith dir "/" then dir else dir +:+ "/") "/" = true.
Proof.
  destruct (endsWith dir "/") eqn:E; [exact E|apply endsWith_append_char].
Qed.

(** ** The 32-bit counter *)

Lemma wrap_int_small (z : Z) : -2147483648 <= z <= 2147483647 -> wrap_int z = z.
Proof.
  intros Hz. unfold wrap_int.
  rewrite Z.mod_small by lia. lia.
Qed.

(** ** Working-path resolution and the writability probe, over any host *)

Section Resolution.

Context {W : Type} `{Host W}.

Lemma checkPortablePath_present (L : Launcher) (w : W) :
  QDir_exists w (_executablePath L +:+ "WalletForcePortable") = true ->
  checkPortablePath L w = (_executablePath L +:+ "WalletForcePortable") +:+ "/".
Proof. intros E. unfold checkPortablePath. by rewrite E. Qed.

Lemma checkPortablePath_absent (L : Launcher) (w : W) :
  QDir_exists w (_executablePath L +:+ "WalletForcePortable") = false ->
  checkPortablePath L w = "".
Proof. intros E. unfold checkPortablePath. by rewrite E. Qed.

(** C1: when the directory [WalletForcePortable] exists under the
    executable directory, [computeWorkingPathBase] returns its path followed
    by a separator, for every build configuration and whatever else the
    file system holds; the world is left as it was. *)
Theorem portable_marker_overrides
    (cfg : BuildConfig) (fuel : nat) (L : Launcher) (w : W) :
  QDir_exists w (_executablePath L +:+ "WalletForcePortable") = true ->
  computeWorkingPathBase cfg fuel L w
  = Returns ((_executablePath L +:+ "WalletForcePortable") +:+ "/", w)
  /\ endsWith ((_executablePath L +:+ "WalletForcePortable") +:+ "/") "/" = true.
Proof.
  intros E. split; [|apply endsWith_append_char].
  unfold computeWorkingPathBase.
  rewrite (checkPortablePath_present _ _ E).
  by rewrite isEmpty_append_char.
Qed.

(** C2, as the code has it: on a Unix-like system built for the store
    ([OS_MAC_STORE]), without a portable marker, the base is the app-data
    directory in debug and release builds alike. *)
Theorem store_variant_uses_app_data
    (cfg : BuildConfig) (fuel : nat) (L : Launcher) (w : W) :
  Q_OS_MAC cfg || Q_OS_LINUX cfg = true ->
  OS_MAC_STORE cfg = true ->
  QDir_exists w (_executablePath L +:+ "WalletForcePortable") = false ->
  computeWorkingPathBase cfg fuel L w = Returns (_appDataPath L, w).
Proof.
  intros Hunix Hstore E. unfold computeWorkingPathBase.
  rewrite (checkPortablePath_absent _ _ E). cbn [isEmpty negb].
  rewrite Hunix, Hstore. by rewrite andb_false_r.
Qed.

(** *** The probe loop *)

Lemma probe_loop_returns (dataPath : string) (fuel : nat) :
  forall (w : W) (index : Z),
    0 <= index < int_max ->
    (Z.to_nat (int_max - index) <= fuel)%nat ->
    exists r, probe_loop fuel dataPath w index = Returns r.
Proof.
  induction fuel as [|fuel IH]; intros w index Hidx Hfuel.
  - unfold int_max in *. lia.
  - cbn [probe_loop].
    rewrite wrap_int_small by (unfold int_max in *; lia).
    destruct (QFile_open_WriteOnly w _) as [opened w1].
    destruct opened.
    { destruct (QFile_remove _ _) as [removed w3]. eauto. }
    destruct (QFile_exists w1 _); cbn [negb]; [|eauto].
    destruct (Z.eqb_spec (index + 1) int_max) as [Hmax|Hmax]; [eauto|].
    apply IH; unfold int_max in *; lia.
Qed.

Lemma probe_loop_more_fuel (dataPath : string) (fuel : nat) :
  forall (fuel' : nat) (w : W) (index : Z) (r : bool * W),
    probe_loop fuel dataPath w index = Returns r ->
    (fuel <= fuel')%nat ->
    probe_loop fuel' dataPath w index = Returns r.
Proof.
  induction fuel as [|fuel IH]; intros fuel' w index r Hrun Hle; [done|].
  destruct fuel' as [|fuel']; [lia|].
  cbn [probe_loop] in *.
  destruct (QFile_open_WriteOnly w _) as [opened w1].
  destruct opened; [done|].
  destruct (QFile_exists w1 _); cbn [negb] in *; [|done].
  destruct (_ =? int_max); [done|].
  apply IH; [done|lia].
Qed.

(** When every name [temp1], [temp2], ... is taken by an entry that cannot
    be opened, the loop runs until the counter is [int_max] and answers
    [false]. *)
Lemma probe_loop_exhausted (dataPath : string) (fuel : nat) :
  (forall (w : W) (k : Z),
      0 < k <= int_max ->
      (QFile_open_WriteOnly w (temp_path dataPath k)).1 = false
      /\ QFile_exists (QFile_open_WriteOnly w (temp_path dataPath k)).2
           (temp_path dataPath k) = true) ->
  forall (w : W) (index : Z) (r : bool * W),
    0 <= index < int_max ->
    probe_loop fuel dataPath w index = Returns r ->
    r.1 = false /\ (Z.to_nat (int_max - index) <= fuel)%nat.
Proof.
  intros Htaken.
  induction fuel as [|fuel IH]; intros w index r Hidx Hrun; [done|].
  cbn [probe_loop] in Hrun.
  rewrite wrap_int_small in Hrun by (unfold int_max in *; lia).
  fold (temp_path dataPath (index + 1)) in Hrun.
  pose proof (Htaken w (index + 1) ltac:(lia)) as [Hopen Hexists].
  destruct (QFile_open_WriteOnly w _) as [opened w1]; cbn in Hopen, Hexists.
  subst opened. rewrite Hexists in Hrun. cbn [negb] in Hrun.
  destruct (Z.eqb_spec (index + 1) int_max) as [Hmax|Hmax].
  - injection Hrun as <-. split; [done|]. unfold int_max in *. lia.
  - apply IH in Hrun as [Hr Hle]; [|unfold int_max in *; lia].
    split; [done|]. unfold int_max in *. lia.
Qed.

Lemma canWorkInExecutablePath_returns (fuel : nat) (L : Launcher) (w : W) :
  (Z.to_nat int_max <= fuel)%nat ->
  exists r, canWorkInExecutablePath fuel L w = Returns r.
Proof.
  intros Hfuel. unfold canWorkInExecutablePath.
  destruct (if negb (QDir_exists w _) then _ else _) as [failed w1].
  destruct failed; [eauto|].
  destruct (QFileInfo_exists w1 _); [eauto|].
  apply probe_loop_returns; [unfold int_max; lia|].
  by rewrite Z.sub_0_r.
Qed.

Lemma canWorkInExecutablePath_more_fuel
    (fuel fuel' : nat) (L : Launcher) (w : W) (r : bool * W) :
  canWorkInExecutablePath fuel L w = Returns r ->
  (fuel <= fuel')%nat ->
  canWorkInExecutablePath fuel' L w = Returns r.
Proof.
  unfold canWorkInExecutablePath. intros Hrun Hle.
  destruct (if negb (QDir_exists w _) then _ else _) as [failed w1].
  destruct failed; [done|].
  destruct (QFileInfo_exists w1 _); [done|].
  by apply (probe_loop_more_fuel _ fuel).
Qed.


(** C6: once the data directory is there (found, or just created) and
    holds [salt], [canWorkInExecutablePath] answers [true] and hands back
    the world as the directory step left it.  This holds for every
    iteration budget, zero included: the probe loop, the only place that
    opens a file, is not entered. *)
Theorem salt_fast_path (fuel : nat) (L : Launcher) (w w1 : W) :
  let dataPath := _executablePath L +:+ "data" in
  (QDir_exists w dataPath = true /\ w1 = w)
  \/ (QDir_exists w dataPath = false /\ QDir_mkpath w dataPath = (true, w1)) ->
  QFileInfo_exists w1 (dataPath +:+ "/salt") = true ->
  canWorkInExecutablePath fuel L w = Returns (true, w1)
  /\ canWorkInExecutablePath 0 L w = Returns (true, w1).
Proof.
  intros dataPath Hdir Hsalt.
  assert (Hany : forall n, canWorkInExecutablePath n L w = Returns (true, w1)).
  { intros n. unfold canWorkInExecutablePath. fold dataPath.
    destruct Hdir as [[Hex ->]|[Hex Hmk]]; rewrite Hex; cbn [negb].
    - by rewrite Hsalt.
    - rewrite Hmk. cbn [negb]. by rewrite Hsalt. }
  split; apply Hany.
Qed.

(** C7: with a budget of [int_max] iterations [canWorkInExecutablePath]
    always returns, and a larger budget returns the same.  When the data
    directory exists without [salt] and every candidate name is taken by an
    entry that cannot be opened, the answer is [false], and no budget below
    [int_max] is enough: the loop stops exactly when the counter equals
    [int_max]. *)
Theorem probe_terminates_at_int_max (fuel : nat) (L : Launcher) (w : W) :
  (Z.to_nat int_max <= fuel)%nat ->
  let dataPath := _executablePath L +:+ "data" in
  (exists r, canWorkInExecutablePath (Z.to_nat int_max) L w = Returns r
             /\ canWorkInExecutablePath fuel L w = Returns r)
  /\ (QDir_exists w dataPath = true ->
      QFileInfo_exists w (dataPath +:+ "/salt") = false ->
      (forall (w' : W) (k : Z),
          0 < k <= int_max ->
          (QFile_open_WriteOnly w' (temp_path dataPath k)).1 = false
          /\ QFile_exists (QFile_open_WriteOnly w' (temp_path dataPath k)).2
               (temp_path dataPath k) = true) ->
      (exists w', canWorkInExecutablePath fuel L w = Returns (false, w'))
      /\ (forall (fuel' : nat) (r' : bool * W),
            canWorkInExecutablePath fuel' L w = Returns r' ->
            (Z.to_nat int_max <= fuel')%nat)).
Proof.
  intros Hfuel dataPath.
  destruct (canWorkInExecutablePath_returns (Z.to_nat int_max) L w (le_n _))
    as [r Hmin].
  pose proof (canWorkInExecutablePath_more_fuel _ fuel L w r Hmin Hfuel) as Hrun.
  split; [by exists r|].
  intros Hdir Hsalt Htaken.
  assert (Hloop : forall n,
    canWorkInExecutablePath n L w = probe_loop n dataPath w 0).
  { intros n. unfold canWorkInExecutablePath. fold dataPath.
    rewrite Hdir. cbn [negb]. by rewrite Hsalt. }
  assert (Hzero : 0 <= 0 < int_max) by (unfold int_max; lia).
  split.
  - destruct r as [b w']. rewrite Hrun. rewrite Hloop in Hrun.
    destruct (probe_loop_exhausted dataPath fuel Htaken w 0 _ Hzero Hrun)
      as [Hb _].
    cbn in Hb. subst b. by exists w'.
  - intros fuel' r' Hrun'. rewrite Hloop in Hrun'.
    destruct (probe_loop_exhausted dataPath fuel' Htaken w 0 _ Hzero Hrun')
      as [_ Hle].
    by rewrite Z.sub_0_r in Hle.
Qed.

(** *** Start-up as a whole *)

Lemma readArguments_loop_returns (n : nat) :
  forall (i : nat) (argv result : list string),
    (i + n <= length argv)%nat ->
    exists r, readArguments_loop n i argv result = Returns r.
Proof.
  induction n as [|n IH]; intros i argv result Hlen; cbn; [eauto|].
  destruct (argv !! i) as [a|] eqn:E.
  - apply IH. lia.
  - apply lookup_ge_None in E. lia.
Qed.

Lemma readArguments_returns (argc : Z) (argv : list string) :
  0 <= argc ->
  (Z.to_nat argc <= length argv)%nat ->
  exists r, readArguments argc argv = Returns r.
Proof.
  intros Hargc Hlen. unfold readArguments.
  destruct (Z.ltb_spec argc 0); [lia|].
  by apply readArguments_loop_returns.
Qed.

Lemma initExecutablePath_cases (L : Launcher) (w : W) :
  initExecutablePath L w = L
  \/ endsWith (_executablePath (initExecutablePath L w)) "/" = true.
Proof.
  unfold initExecutablePath.
  destruct (isEmpty _); [by left|].
  destruct (QFileInfo_exists w _); cbn [negb]; [|by left].
  right. cbn. apply endsWith_normalised.
Qed.

Lemma prepareSettings_appDataPath (L : Launcher) (w : W) :
  endsWith (_appDataPath (prepareSettings L w)) "/" = true.
Proof. cbn. apply endsWith_normalised. Qed.

(** The base is the portable marker path, the executable directory or the
    app-data directory. *)
Lemma computeWorkingPathBase_cases
    (cfg : BuildConfig) (fuel : nat) (L : Launcher) (w w' : W) (base : string) :
  computeWorkingPathBase cfg fuel L w = Returns (base, w') ->
  base = (_executablePath L +:+ "WalletForcePortable") +:+ "/"
  \/ base = _executablePath L
  \/ base = _appDataPath L.
Proof.
  unfold computeWorkingPathBase, checkPortablePath.
  destruct (QDir_exists w _).
  { rewrite isEmpty_append_char. cbn [negb]. intros [= <- <-]. by left. }
  cbn [isEmpty negb].
  destruct (Q_OS_MAC cfg || Q_OS_LINUX cfg).
  { destruct (_DEBUG cfg && negb (OS_MAC_STORE cfg)); intros [= <- <-]; auto. }
  destruct (OS_WIN_STORE cfg).
  { destruct (_DEBUG cfg); intros [= <- <-]; auto. }
  destruct (Q_OS_WIN cfg); [|done].
  destruct (canWorkInExecutablePath fuel L w) as [[ok w1]| | |]; cbn; try done.
  destruct ok; intros [= <- <-]; auto.
Qed.

Lemma computeWorkingPathBase_returns
    (cfg : BuildConfig) (fuel : nat) (L : Launcher) (w : W) :
  supported cfg ->
  (Z.to_nat int_max <= fuel)%nat ->
  exists r, computeWorkingPathBase cfg fuel L w = Returns r.
Proof.
  unfold supported, computeWorkingPathBase. intros Hcfg Hfuel.
  destruct (negb (isEmpty _)); [eauto|].
  destruct (Q_OS_MAC cfg || Q_OS_LINUX cfg).
  { destruct (_DEBUG cfg && negb (OS_MAC_STORE cfg)); eauto. }
  destruct (OS_WIN_STORE cfg).
  { destruct (_DEBUG cfg); eauto. }
  destruct (Q_OS_WIN cfg); [|done].
  destruct (canWorkInExecutablePath_returns fuel L w Hfuel) as [[ok w1] ->].
  cbn. destruct ok; eauto.
Qed.

Lemma init_returns
    (cfg : BuildConfig) (fuel : nat) (argc : Z) (argv : list string) (w : W) :
  supported cfg ->
  0 <= argc ->
  (Z.to_nat argc <= length argv)%nat ->
  (Z.to_nat int_max <= fuel)%nat ->
  exists (arguments : list string) (base : string) (w' : W),
    init cfg fuel (Create argc argv) w
    = Returns (set_workingPath (base +:+ "data/")
                 (prepareSettings (set_arguments arguments (Create argc argv)) w),
               w').
Proof.
  intros Hcfg Hargc Hlen Hfuel. unfold init. cbn [_argc _argv Create].
  destruct (readArguments_returns argc argv Hargc Hlen) as [arguments ->].
  cbn [bind]. unfold initWorkingPath.
  destruct (computeWorkingPathBase_returns cfg fuel
              (prepareSettings (set_arguments arguments (Create argc argv)) w) w
              Hcfg Hfuel) as [[base w'] ->].
  cbn [bind]. eauto.
Qed.

Lemma init_returns_base
    (cfg : BuildConfig) (fuel : nat) (argc : Z) (argv : list string) (w : W) :
  supported cfg ->
  0 <= argc ->
  (Z.to_nat argc <= length argv)%nat ->
  (Z.to_nat int_max <= fuel)%nat ->
  exists (arguments : list string) (base : string) (w' : W),
    computeWorkingPathBase cfg fuel
      (prepareSettings (set_arguments arguments (Create argc argv)) w) w
    = Returns (base, w')
    /\ init cfg fuel (Create argc argv) w
       = Returns (set_workingPath (base +:+ "data/")
                    (prepareSettings (set_arguments arguments (Create argc argv)) w),
                  w').
Proof.
  intros Hcfg Hargc Hlen Hfuel. unfold init. cbn [_argc _argv Create].
  destruct (readArguments_returns argc argv Hargc Hlen) as [arguments ->].
  cbn [bind]. unfold initWorkingPath.
  destruct (computeWorkingPathBase_returns cfg fuel
              (prepareSettings (set_arguments arguments (Create argc argv)) w) w
              Hcfg Hfuel) as [[base w'] Hbase].
  exists arguments, base, w'. split; [exact Hbase|]. by rewrite Hbase.
Qed.

(** C3, as the code has it: whenever [init] returns, the working path is
    the base returned by [computeWorkingPathBase] followed by [data/]; the
    base ends with a separator, except that it is empty when the executable
    path could not be resolved and the executable directory was chosen. *)
Theorem working_path_is_base_plus_data
    (cfg : BuildConfig) (fuel : nat) (argc : Z) (argv : list string)
    (w w' : W) (L' : Launcher) :
  init cfg fuel (Create argc argv) w = Returns (L', w') ->
  exists (arguments : list string) (base : string),
    readArguments argc argv = Returns arguments
    /\ computeWorkingPathBase cfg fuel
         (prepareSettings (set_arguments arguments (Create argc argv)) w) w
       = Returns (base, w')
    /\ _workingPath L' = base +:+ "data/"
    /\ (endsWith base "/" = true
        \/ (base = "" /\ _executablePath L' = "")).
Proof.
  unfold init. cbn [_argc _argv Create].
  destruct (readArguments argc argv) as [arguments| | |]; cbn [bind]; try done.
  unfold initWorkingPath.
  set (L2 := prepareSettings _ w).
  destruct (computeWorkingPathBase cfg fuel L2 w) as [[base w1]| | |] eqn:Hbase;
    cbn [bind]; try done.
  intros [= <- <-]. exists arguments, base.
  split; [done|]. split; [exact Hbase|]. split; [done|].
  apply computeWorkingPathBase_cases in Hbase as [->|[->| ->]].
  - left. apply endsWith_append_char.
  - subst L2. cbn [_executablePath set_workingPath].
    change (_executablePath (prepareSettings ?L w))
      with (_executablePath (initExecutablePath L w)).
    destruct (initExecutablePath_cases
                (set_arguments arguments (Create argc argv)) w) as [->|Hends];
      [by right|by left].
  - left. apply prepareSettings_appDataPath.
Qed.

(** The base [computeWorkingPathBase] returns when the executable path is
    empty, by build configuration. *)
Lemma computeWorkingPathBase_unresolved
    (cfg : BuildConfig) (fuel : nat) (L : Launcher) (w w' : W) (base : string) :
  _executablePath L = "" ->
  computeWorkingPathBase cfg fuel L w = Returns (base, w') ->
  if QDir_exists w "WalletForcePortable"
  then base = "WalletForcePortable/" /\ w' = w
  else if Q_OS_MAC cfg || Q_OS_LINUX cfg
  then base = (if _DEBUG cfg && negb (OS_MAC_STORE cfg)
               then "" else _appDataPath L) /\ w' = w
  else if OS_WIN_STORE cfg
  then base = (if _DEBUG cfg then "" else _appDataPath L) /\ w' = w
  else exists ok : bool,
         canWorkInExecutablePath fuel L w = Returns (ok, w')
         /\ base = (if ok then "" else _appDataPath L).
Proof.
  intros Hexe. unfold computeWorkingPathBase, checkPortablePath.
  rewrite Hexe. change ("" +:+ "WalletForcePortable") with "WalletForcePortable".
  destruct (QDir_exists w "WalletForcePortable").
  { cbn. by intros [= <- <-]. }
  cbn [isEmpty negb].
  destruct (Q_OS_MAC cfg || Q_OS_LINUX cfg).
  { destruct (_DEBUG cfg && negb (OS_MAC_STORE cfg)); by intros [= <- <-]. }
  destruct (OS_WIN_STORE cfg).
  { destruct (_DEBUG cfg); by intros [= <- <-]. }
  destruct (Q_OS_WIN cfg); [|done].
  destruct (canWorkInExecutablePath fuel L w) as [[ok w1]| | |]; cbn [bind];
    try done.
  destruct ok; intros [= <- <-]; by eexists.
Qed.

(** C9, as the code has it: a symbolic link is followed once: the file
    examined is the link's target, taken as it is.  When that file exists
    the executable name and directory are read from it.  When it does not,
    the launcher is left as created, with both empty, and [init] still
    returns on every supported build.  The base is then chosen by the
    usual rules with the empty executable path in the place of the
    executable directory: the relative marker directory when it exists;
    otherwise the app-data directory in release and store builds but the
    empty path itself in debug builds; on conventional Windows the one or
    the other as the probe of the relative directory [data] answers.  The
    app-data path ends with a separator. *)
Theorem unresolved_executable_left_empty
    (cfg : BuildConfig) (fuel : nat) (argc : Z) (argv : list string) (w : W) :
  supported cfg ->
  0 <= argc ->
  (Z.to_nat argc <= length argv)%nat ->
  (Z.to_nat int_max <= fuel)%nat ->
  let path := CurrentExecutablePath w argc argv in
  let info := if QFileInfo_isSymLink w path
              then QFileInfo_symLinkTarget w path else path in
  let dir := QFileInfo_absoluteDir_absolutePath w info in
  (path <> "" -> QFileInfo_exists w info = true ->
     _executableName (initExecutablePath (Create argc argv) w)
     = QFileInfo_fileName w info
     /\ _executablePath (initExecutablePath (Create argc argv) w)
        = (if endsWith dir "/" then dir else dir +:+ "/"))
  /\ (QFileInfo_exists w info = false ->
        initExecutablePath (Create argc argv) w = Create argc argv
        /\ exists (L' : Launcher) (w' : W) (base : string),
             init cfg fuel (Create argc argv) w = Returns (L', w')
             /\ _executablePath L' = "" /\ _executableName L' = ""
             /\ endsWith (_appDataPath L') "/" = true
             /\ _workingPath L' = base +:+ "data/"
             /\ (if QDir_exists w "WalletForcePortable"
                 then base = "WalletForcePortable/" /\ w' = w
                 else if Q_OS_MAC cfg || Q_OS_LINUX cfg
                 then base = (if _DEBUG cfg && negb (OS_MAC_STORE cfg)
                              then "" else _appDataPath L') /\ w' = w
                 else if OS_WIN_STORE cfg
                 then base = (if _DEBUG cfg then "" else _appDataPath L') /\ w' = w
                 else exists ok : bool,
                        canWorkInExecutablePath fuel L' w = Returns (ok, w')
                        /\ base = (if ok then "" else _appDataPath L'))).
Proof.
  intros Hcfg Hargc Hlen Hfuel path info dir. split.
  - intros Hpath Hex. unfold initExecutablePath. cbn [_argc _argv Create].
    fold path. destruct (isEmpty path) eqn:E; [by apply isEmpty_true in E|].
    fold info. rewrite Hex. cbn [negb]. by fold dir.
  - intros Hex.
    assert (Hsame : forall L, _argc L = argc -> _argv L = argv ->
              initExecutablePath L w = L).
    { intros L HL1 HL2. unfold initExecutablePath. rewrite HL1, HL2.
      fold path. destruct (isEmpty path); [done|].
      fold info. by rewrite Hex. }
    split; [by apply Hsame|].
    destruct (init_returns_base cfg fuel argc argv w Hcfg Hargc Hlen Hfuel)
      as (arguments & base & w' & Hbase & Hinit).
    set (L2 := prepareSettings (set_arguments arguments (Create argc argv)) w)
      in *.
    assert (Hexe : _executablePath L2 = "").
    { subst L2.
      change (_executablePath (prepareSettings ?L w))
        with (_executablePath (initExecutablePath L w)).
      by rewrite Hsame. }
    assert (Hname : _executableName L2 = "").
    { subst L2.
      change (_executableName (prepareSettings ?L w))
        with (_executableName (initExecutablePath L w)).
      by rewrite Hsame. }
    exists (set_workingPath (base +:+ "data/") L2), w', base.
    split; [exact Hinit|]. split; [exact Hexe|]. split; [exact Hname|].
    split; [apply prepareSettings_appDataPath|]. split; [reflexivity|].
    exact (computeWorkingPathBase_unresolved cfg fuel L2 w w' base Hexe Hbase).
Qed.

(** *** What one call of the probe changes *)



End Resolution.

(** ** More on strings *)

Lemma append_assoc (a b c : string) : (a +:+ b) +:+ c = a +:+ (b +:+ c).
Proof.
  induction a as [|x a IH]; [done|].
  change (String x ((a +:+ b) +:+ c) = String x (a +:+ (b +:+ c))).
  by rewrite IH.
Qed.

(** ** The simulated file tree *)

Section SimTree.

Import Sim.

Lemma set_nodes_id (w : world) : set_nodes (nodes w) w = w.
Proof. by destruct w. Qed.

Lemma stat_not_link (m : gmap string node) (p : string) (e : option node) :
  m !! p = e ->
  (forall t, e <> Some (Link t)) ->
  stat m p = (p, e).
Proof.
  intros E Hnl. unfold stat, symloop_max. cbn [follow]. rewrite E.
  destruct e as [[perm|perm|t]|]; try done. by destruct (Hnl t).
Qed.


End SimTree.

(** ** The properties at concrete invocations *)

Section Invocations.

Import Sim.

Lemma portable_marker_overrides_witness :
  QDir_exists portable
    (_executablePath (prepared portable) +:+ "WalletForcePortable") = true
  /\ writable_dir (nodes portable) "/opt/wallet" = false
  /\ computeWorkingPathBase windows_release 0 (prepared portable) portable
     = Returns ("/opt/wallet/WalletForcePortable/", portable).
Proof.
  assert (Hmarker : QDir_exists portable
            (_executablePath (prepared portable) +:+ "WalletForcePortable") = true)
    by (vm_compute; reflexivity).
  split; [exact Hmarker|]. split; [vm_compute; reflexivity|].
  exact (proj1 (portable_marker_overrides windows_release 0
                  (prepared portable) portable Hmarker)).
Defined.

(** A debug build for the store on macOS: the base is the app-data
    directory, not the executable directory. *)
Lemma mac_store_debug_base_is_app_data :
  let w := desktop installed in
  Q_OS_MAC mac_store_debug = true
  /\ OS_MAC_STORE mac_store_debug = true
  /\ _DEBUG mac_store_debug = true
  /\ checkPortablePath (prepared w) w = ""
  /\ _executablePath (prepared w) = "/opt/wallet/"
  /\ computeWorkingPathBase mac_store_debug 0 (prepared w) w
     = Returns ("/home/user/.local/share/Gram Wallet/", w)
  /\ computeWorkingPathBase mac_store_debug 0 (prepared w) w
     <> Returns (_executablePath (prepared w), w).
Proof. vm_compute. repeat split; discriminate. Qed.

Lemma store_variant_uses_app_data_witness :
  let w := desktop installed in
  Q_OS_MAC mac_store_debug || Q_OS_LINUX mac_store_debug = true
  /\ OS_MAC_STORE mac_store_debug = true
  /\ QDir_exists w (_executablePath (prepared w) +:+ "WalletForcePortable") = false
  /\ computeWorkingPathBase mac_store_debug 0 (prepared w) w
     = Returns (_appDataPath (prepared w), w).
Proof.
  intros w.
  assert (Hunix : Q_OS_MAC mac_store_debug || Q_OS_LINUX mac_store_debug = true)
    by reflexivity.
  assert (Hstore : OS_MAC_STORE mac_store_debug = true) by reflexivity.
  assert (Hmarker : QDir_exists w
            (_executablePath (prepared w) +:+ "WalletForcePortable") = false)
    by (vm_compute; reflexivity).
  split; [exact Hunix|]. split; [exact Hstore|]. split; [exact Hmarker|].
  exact (store_variant_uses_app_data mac_store_debug 0 (prepared w) w
           Hunix Hstore Hmarker).
Defined.

(** The binary was deleted: a debug build on Linux takes the empty
    executable path as its base, which does not end with a separator. *)
Lemma unresolved_base_is_empty :
  exists L' : Launcher,
    init linux_debug 0 (Create 1 ["Wallet"]) binary_deleted
    = Returns (L', binary_deleted)
    /\ computeWorkingPathBase linux_debug 0 (prepared binary_deleted) binary_deleted
       = Returns ("", binary_deleted)
    /\ endsWith "" "/" = false
    /\ _workingPath L' = "data/".
Proof. eexists. vm_compute. repeat split; reflexivity. Qed.

Lemma working_path_is_base_plus_data_witness :
  let w := desktop installed in
  let w' := desktop (<["/opt/wallet/data" := Dir true]> installed) in
  let L' := set_workingPath "/opt/wallet/data/" (prepared w) in
  init windows_release 1 (Create 1 ["Wallet"]) w = Returns (L', w')
  /\ exists (arguments : list string) (base : string),
       readArguments 1 ["Wallet"] = Returns arguments
       /\ computeWorkingPathBase windows_release 1
            (prepareSettings (set_arguments arguments (Create 1 ["Wallet"])) w) w
          = Returns (base, w')
       /\ _workingPath L' = base +:+ "data/"
       /\ (endsWith base "/" = true
           \/ (base = "" /\ _executablePath L' = "")).
Proof.
  intros w w' L'.
  assert (Hinit : init windows_release 1 (Create 1 ["Wallet"]) w = Returns (L', w'))
    by (vm_compute; reflexivity).
  split; [exact Hinit|].
  exact (working_path_is_base_plus_data windows_release 1 1 ["Wallet"]
           w w' L' Hinit).
Defined.

Lemma salt_fast_path_witness :
  QDir_exists salted (_executablePath (prepared salted) +:+ "data") = true
  /\ QFileInfo_exists salted
       ((_executablePath (prepared salted) +:+ "data") +:+ "/salt") = true
  /\ canWorkInExecutablePath 0 (prepared salted) salted = Returns (true, salted).
Proof.
  assert (Hdir : QDir_exists salted
            (_executablePath (prepared salted) +:+ "data") = true)
    by (vm_compute; reflexivity).
  assert (Hsalt : QFileInfo_exists salted
            ((_executablePath (prepared salted) +:+ "data") +:+ "/salt") = true)
    by (vm_compute; reflexivity).
  split; [exact Hdir|]. split; [exact Hsalt|].
  exact (proj2 (salt_fast_path 0 (prepared salted) salted salted
                  (or_introl (conj Hdir eq_refl)) Hsalt)).
Defined.

Lemma probe_terminates_at_int_max_witness :
  (Z.to_nat int_max <= Z.to_nat int_max)%nat
  /\ QDir_exists tt "data" = true
  /\ QFileInfo_exists tt "data/salt" = false
  /\ exists w' : unit,
       canWorkInExecutablePath (Z.to_nat int_max) (Create 0 []) tt
       = Returns (false, w').
Proof.
  assert (Hfuel : (Z.to_nat int_max <= Z.to_nat int_max)%nat) by apply le_n.
  assert (Hdir : QDir_exists tt "data" = true) by reflexivity.
  assert (Hsalt : QFileInfo_exists tt "data/salt" = false) by reflexivity.
  assert (Htaken : forall (w' : unit) (k : Z),
            0 < k <= int_max ->
            (QFile_open_WriteOnly w' (temp_path "data" k)).1 = false
            /\ QFile_exists (QFile_open_WriteOnly w' (temp_path "data" k)).2
                 (temp_path "data" k) = true)
    by (intros w' k _; split; reflexivity).
  split; [exact Hfuel|]. split; [exact Hdir|]. split; [exact Hsalt|].
  exact (proj1 (proj2 (probe_terminates_at_int_max (Z.to_nat int_max)
                         (Create 0 []) tt Hfuel) Hdir Hsalt Htaken)).
Defined.


(** The same loss when [temp1] is a symbolic link to a missing file: the
    open creates the file the link points to, [remove] unlinks the link,
    and the new file stays behind. *)
Example dangling_temp_link_leaves_file :
  let w := dangling_temp in
  let w1 := desktop (<["/opt/wallet/elsewhere" := File true]>
                      (<["/opt/wallet/data" := Dir true]> installed)) in
  nodes w !! "/opt/wallet/elsewhere" = None
  /\ canWorkInExecutablePath 1 (prepared w) w = Returns (true, w1)
  /\ nodes w1 !! "/opt/wallet/elsewhere" = Some (File true)
  /\ nodes w1 !! "/opt/wallet/data/temp1" = None.
Proof. vm_compute. repeat split. Qed.

(** A probe file whose removal is refused stays behind: [remove] is called
    and its answer is not looked at. *)
Example held_probe_file_stays_behind :
  let w := held_temp in
  nodes w !! "/opt/wallet/data/temp1" = None
  /\ exists w1 : world,
       canWorkInExecutablePath 1 (prepared w) w = Returns (true, w1)
       /\ nodes w1 !! "/opt/wallet/data/temp1" = Some (File true).
Proof. split; [vm_compute; reflexivity|]. eexists. vm_compute. by split. Qed.


(** Started through a dangling link, debug build on Linux: both strings
    stay empty and [init] returns, but the base is the empty executable
    path, not the app-data directory, which was resolved. *)
Lemma unresolved_debug_base_is_not_app_data :
  let w := dangling_link in
  QFileInfo_isSymLink w "/usr/local/bin/wallet" = true
  /\ QFileInfo_exists w "/opt/wallet/Wallet" = false
  /\ _executablePath (prepared w) = ""
  /\ _executableName (prepared w) = ""
  /\ _appDataPath (prepared w) = "/home/user/.local/share/Gram Wallet/"
  /\ computeWorkingPathBase linux_debug 0 (prepared w) w = Returns ("", w)
  /\ computeWorkingPathBase linux_debug 0 (prepared w) w
     <> Returns (_appDataPath (prepared w), w)
  /\ init linux_debug 0 (Create 1 ["Wallet"]) w
     = Returns (set_workingPath "data/" (prepared w), w).
Proof. vm_compute. repeat split; discriminate. Qed.

Lemma unresolved_executable_left_empty_witness :
  let w := dangling_link in
  supported linux_release
  /\ 0 <= 1
  /\ (Z.to_nat 1 <= length ["Wallet"])%nat
  /\ (Z.to_nat int_max <= Z.to_nat int_max)%nat
  /\ QFileInfo_isSymLink w "/usr/local/bin/wallet" = true
  /\ QFileInfo_exists w "/opt/wallet/Wallet" = false
  /\ initExecutablePath (Create 1 ["Wallet"]) w = Create 1 ["Wallet"]
  /\ exists (L' : Launcher) (w' : world) (base : string),
       init linux_release (Z.to_nat int_max) (Create 1 ["Wallet"]) w
       = Returns (L', w')
       /\ _executablePath L' = "" /\ _executableName L' = ""
       /\ endsWith (_appDataPath L') "/" = true
       /\ _workingPath L' = base +:+ "data/"
       /\ base = _appDataPath L' /\ w' = w.
Proof.
  intros w.
  assert (Hcfg : supported linux_release) by reflexivity.
  assert (Hargc : 0 <= 1) by lia.
  assert (Hlen : (Z.to_nat 1 <= length ["Wallet"])%nat) by (vm_compute; lia).
  assert (Hfuel : (Z.to_nat int_max <= Z.to_nat int_max)%nat) by apply le_n.
  assert (Hlink : QFileInfo_isSymLink w "/usr/local/bin/wallet" = true)
    by (vm_compute; reflexivity).
  assert (Hgone : QFileInfo_exists w "/opt/wallet/Wallet" = false)
    by (vm_compute; reflexivity).
  split; [exact Hcfg|]. split; [exact Hargc|]. split; [exact Hlen|].
  split; [exact Hfuel|]. split; [exact Hlink|]. split; [exact Hgone|].
  destruct (proj2 (unresolved_executable_left_empty linux_release
                     (Z.to_nat int_max) 1 ["Wallet"] w
                     Hcfg Hargc Hlen Hfuel) Hgone)
    as (Hsame & L' & w' & base & Hinit & Hexe & Hname & Happ & Hwp & Hcase).
  split; [exact Hsame|].
  exists L', w', base.
  split; [exact Hinit|]. split; [exact Hexe|]. split; [exact Hname|].
  split; [exact Happ|]. split; [exact Hwp|].
  exact Hcase.
Defined.

(** A link to a link is followed once: name and directory are those of
    the first target, itself a link, not of the binary behind it. *)
Example symlink_followed_once :
  _executableName (initExecutablePath (Create 1 ["wallet"]) link_chain)
  = "wallet-current"
  /\ _executablePath (initExecutablePath (Create 1 ["wallet"]) link_chain)
     = "/opt/alt/".
Proof. vm_compute. split; reflexivity. Qed.

(** The invocations of the specification's examples. *)
Example deep_link_invocation :
  let argv := ["app"; "--flag"; "--"; "tonwallet://pay/abc"] in
  exists (L' : Launcher) (w' : world),
    init linux_release 0 (Create 4 argv) (desktop installed) = Returns (L', w')
    /\ _openedUrl L' = "tonwallet://pay/abc"
    /\ Filtered.forwarded (Filtered.make 4 argv) = [Some "app"].
Proof. eexists _, _. vm_compute. repeat split; reflexivity. Qed.

Example no_arguments_invocation :
  exists (L' : Launcher) (w' : world),
    init linux_release 0 (Create 0 []) (desktop installed) = Returns (L', w')
    /\ _openedUrl L' = ""
    /\ Filtered.forwarded (Filtered.make 0 []) = [].
Proof. eexists _, _. vm_compute. repeat split; reflexivity. Qed.

End Invocations.

(** * Further properties *)

(** ** The argument parser, the joined argument string, the filtered vector *)

Section MoreArguments.

Lemma processArguments_loop_member (nextUrl : bool) (url : string)
    (arguments : list string) :
  processArguments_loop nextUrl url arguments = url
  \/ processArguments_loop nextUrl url arguments ∈ arguments.
Proof.
  revert nextUrl url.
  induction arguments as [|a rest IH]; intros nextUrl url; [by left|].
  cbn [processArguments_loop]. destruct nextUrl.
  - right. destruct (IH true a) as [->|Hin]; [by left|by right].
  - destruct (String.eqb a "--").
    + destruct (IH true url) as [->|Hin]; [by left|right; by right].
    + destruct (IH false url) as [->|Hin]; [by left|right; by right].
Qed.

Lemma processArguments_loop_twice (nextUrl : bool) (url : string)
    (arguments : list string) :
  processArguments_loop nextUrl (processArguments_loop nextUrl url arguments)
    arguments
  = processArguments_loop nextUrl url arguments.
Proof.
  destruct nextUrl.
  - rewrite !processArguments_loop_true. by destruct (last arguments).
  - revert url. induction arguments as [|a rest IH]; intros url; [done|].
    cbn [processArguments_loop].
    destruct (String.eqb a "--"); [|apply IH].
    rewrite !processArguments_loop_true. by destruct (last rest).
Qed.

(** X15: whatever stands before the first [--] has no influence on the opened
    URL. *)
Theorem processArguments_ignores_prefix
    (L0 : Launcher) (pre pre' rest : list string) :
  "--" ∉ pre ->
  "--" ∉ pre' ->
  _openedUrl (processArguments (set_arguments (pre ++ rest) L0))
  = _openedUrl (processArguments (set_arguments (pre' ++ rest) L0)).
Proof.
  intros Hpre Hpre'. cbn.
  by rewrite !processArguments_loop_skip.
Qed.

Lemma processArguments_ignores_prefix_witness :
  ("--" ∉ ["app"; "--flag"])
  /\ ("--" ∉ ["other"; "-x"; "y"])
  /\ _openedUrl (processArguments
       (set_arguments (["app"; "--flag"] ++ ["--"; "url"]) (Create 4 [])))
     = _openedUrl (processArguments
         (set_arguments (["other"; "-x"; "y"] ++ ["--"; "url"]) (Create 5 []))).
Proof.
  assert (H1 : "--" ∉ ["app"; "--flag"])
    by (apply (bool_decide_unpack _); reflexivity).
  assert (H2 : "--" ∉ ["other"; "-x"; "y"])
    by (apply (bool_decide_unpack _); reflexivity).
  split; [exact H1|]. split; [exact H2|].
  exact (processArguments_ignores_prefix (Create 4 []) _ _ ["--"; "url"] H1 H2).
Defined.

(** X16: the opened URL after [processArguments] is the value it had before or
    one of the arguments: nothing else is ever stored. *)
Theorem processArguments_stores_an_argument (L : Launcher) :
  _openedUrl (processArguments L) = _openedUrl L
  \/ _openedUrl (processArguments L) ∈ _arguments L.
Proof. cbn. apply processArguments_loop_member. Qed.

(** X17: running [processArguments] a second time changes nothing. *)
Theorem processArguments_idempotent (L : Launcher) :
  processArguments (processArguments L) = processArguments L.
Proof.
  unfold processArguments, set_openedUrl. cbn.
  by rewrite processArguments_loop_twice.
Qed.

(** X18: [argumentsString] of two non-empty argument lists put together is the
    two joined strings with one space between them. *)
Theorem argumentsString_app (L : Launcher) (l1 l2 : list string) :
  l1 <> [] ->
  l2 <> [] ->
  argumentsString (set_arguments (l1 ++ l2) L)
  = argumentsString (set_arguments l1 L)
    +:+ (" " +:+ argumentsString (set_arguments l2 L)).
Proof.
  intros H1 H2. unfold argumentsString. cbn [_arguments set_arguments].
  induction l1 as [|a l1 IH]; [done|].
  destruct l1 as [|b l1].
  - destruct l2 as [|c l2]; [done|]. reflexivity.
  - change (join " " ((a :: b :: l1) ++ l2))
      with (a +:+ (" " +:+ join " " ((b :: l1) ++ l2))).
    rewrite IH by done.
    change (join " " (a :: b :: l1)) with (a +:+ (" " +:+ join " " (b :: l1))).
    by rewrite !append_assoc.
Qed.

Lemma argumentsString_app_witness :
  ["app"; "--flag"] <> []
  /\ ["--"; "url"] <> []
  /\ argumentsString (set_arguments (["app"; "--flag"] ++ ["--"; "url"]) (Create 4 []))
     = "app --flag -- url".
Proof.
  assert (H1 : ["app"; "--flag"] <> []) by discriminate.
  assert (H2 : ["--"; "url"] <> []) by discriminate.
  split; [exact H1|]. split; [exact H2|].
  exact (argumentsString_app (Create 4 []) _ _ H1 H2).
Defined.

(** X19: the array handed to the runtime always has two slots, and every slot
    from index [count()] on is the null pointer: the vector is
    null-terminated like [argv], whatever [argc] and [argv] are. *)
Theorem filtered_values_null_terminated (argc : Z) (argv : list string) :
  let f := Filtered.make argc argv in
  length (Filtered.values f) = 2%nat
  /\ forall i : nat,
       (Z.to_nat (Filtered.count f) <= i < 2)%nat ->
       Filtered.values f !! i = Some None.
Proof.
  intros f.
  assert (Hcount : Filtered.count f = Z.max 0 (Z.min argc 1))
    by apply clamp_forward_count.
  unfold Filtered.values. subst f. unfold Filtered.make in *.
  unfold Filtered.count in Hcount. cbn [Filtered._count Filtered._arguments] in *.
  destruct (Z.le_gt_cases argc 0) as [Hle|Hgt].
  - rewrite Hcount. replace (Z.max 0 (Z.min argc 1)) with 0 by lia.
    split; [done|]. intros i Hi. cbn in Hi.
    destruct i as [|[|i]]; [done|done|lia].
  - rewrite Hcount. replace (Z.max 0 (Z.min argc 1)) with 1 by lia.
    split; [done|]. intros i Hi. cbn in Hi.
    destruct i as [|[|i]]; [lia|done|lia].
Qed.

End MoreArguments.

(** ** Start-up and the decision table, over any host *)

Section MoreResolution.

Context {W : Type} `{Host W}.

Lemma readArguments_loop_spec (argv : list string) (n : nat) :
  forall (i : nat) (result : list string),
    (i <= length argv)%nat ->
    readArguments_loop n i argv result
    = if decide (i + n <= length argv)%nat
      then Returns (result ++ (FromUtf8Safe <$> take n (drop i argv)))
      else Undefined.
Proof.
  induction n as [|n IH]; intros i result Hi.
  - cbn. rewrite app_nil_r. destruct (decide _); [done|lia].
  - cbn [readArguments_loop].
    destruct (argv !! i) as [a|] eqn:E.
    + apply lookup_lt_Some in E as Hlt. rewrite IH by lia.
      rewrite (drop_S _ _ _ E). cbn [take fmap list_fmap].
      destruct (decide (S i + n <= length argv)%nat),
               (decide (i + S n <= length argv)%nat); try lia; [|done].
      by rewrite <- app_assoc.
    + apply lookup_ge_None in E.
      destruct (decide _); [lia|done].
Qed.

Lemma init_inversion
    (cfg : BuildConfig) (fuel : nat) (argc : Z) (argv : list string)
    (w w' : W) (L' : Launcher) :
  init cfg fuel (Create argc argv) w = Returns (L', w') ->
  0 <= argc
  /\ (Z.to_nat argc <= length argv)%nat
  /\ exists base : string,
       L' = set_workingPath (base +:+ "data/")
              (prepareSettings
                 (set_arguments (FromUtf8Safe <$> take (Z.to_nat argc) argv)
                    (Create argc argv)) w).
Proof.
  unfold init, readArguments. cbn [_argc _argv Create].
  destruct (Z.ltb_spec argc 0) as [Hneg|Hpos]; [done|].
  rewrite readArguments_loop_spec by lia.
  destruct (decide _) as [Hlen|Hlen]; [|done].
  cbn [bind app]. rewrite drop_0. unfold initWorkingPath.
  destruct (computeWorkingPathBase _ _ _ _) as [[base w1]| | |]; cbn [bind];
    try done.
  intros [= <- <-]. split; [done|]. split; [lia|]. by exists base.
Qed.

Lemma prepareSettings_keeps_arguments (L : Launcher) (w : W) :
  _argc (prepareSettings L w) = _argc L
  /\ _argv (prepareSettings L w) = _argv L
  /\ _arguments (prepareSettings L w) = _arguments L.
Proof.
  unfold prepareSettings, processArguments, initAppDataPath, initExecutablePath.
  cbn. destruct (isEmpty _); [done|].
  by destruct (QFileInfo_exists w _).
Qed.

Lemma prepareSettings_openedUrl (L : Launcher) (w : W) :
  _openedUrl (prepareSettings L w)
  = processArguments_loop false (_openedUrl L) (_arguments L).
Proof.
  unfold prepareSettings, processArguments, initAppDataPath, initExecutablePath.
  cbn. destruct (isEmpty _); [done|].
  by destruct (QFileInfo_exists w _).
Qed.

(** X1: [readArguments] returns the first [argc] entries of [argv], decoded,
    in their order. *)
Theorem readArguments_decodes (argc : Z) (argv : list string) :
  0 <= argc ->
  (Z.to_nat argc <= length argv)%nat ->
  readArguments argc argv
  = Returns (FromUtf8Safe <$> take (Z.to_nat argc) argv).
Proof.
  intros Hargc Hlen. unfold readArguments.
  destruct (Z.ltb_spec argc 0); [lia|].
  rewrite readArguments_loop_spec by lia. rewrite drop_0.
  destruct (decide _); [done|lia].
Qed.

(** X2: for an argument vector with at least [argc] entries, [init] with a
    negative [argc] stops at the [Expects] of [readArguments], before any
    path is resolved; and whenever [init] returns, [argc] is not negative,
    the launcher keeps [argc] and [argv] and holds the decoded first [argc]
    arguments. *)
Theorem init_keeps_decoded_arguments
    (cfg : BuildConfig) (fuel : nat) (argc : Z) (argv : list string) (w : W) :
  (Z.to_nat argc <= length argv)%nat ->
  (argc < 0 -> init cfg fuel (Create argc argv) w = ExpectsFailed)
  /\ (forall (L' : Launcher) (w' : W),
        init cfg fuel (Create argc argv) w = Returns (L', w') ->
        0 <= argc
        /\ _argc L' = argc
        /\ _argv L' = argv
        /\ _arguments L' = FromUtf8Safe <$> take (Z.to_nat argc) argv).
Proof.
  intros Hlen. split.
  - intros Hneg. unfold init, readArguments. cbn [_argc _argv Create].
    by destruct (Z.ltb_spec argc 0); [|lia].
  - intros L' w' Hinit.
    destruct (init_inversion _ _ _ _ _ _ _ Hinit) as (Hargc & _ & base & ->).
    split; [exact Hargc|].
    cbn [_argc _argv _arguments set_workingPath].
    by destruct (prepareSettings_keeps_arguments
                   (set_arguments (FromUtf8Safe <$> take (Z.to_nat argc) argv)
                      (Create argc argv)) w) as (-> & -> & ->).
Qed.

(** X3: end to end: with the decoded arguments split at the first [--], the
    launcher [init] returns has the last argument behind it as opened URL
    (none when nothing follows), on every build and in every world. *)
Theorem init_opened_url
    (cfg : BuildConfig) (fuel : nat) (argc : Z) (argv : list string)
    (w w' : W) (L' : Launcher) (pre post : list string) :
  init cfg fuel (Create argc argv) w = Returns (L', w') ->
  FromUtf8Safe <$> take (Z.to_nat argc) argv = pre ++ "--" :: post ->
  "--" ∉ pre ->
  _openedUrl L' = default "" (last post).
Proof.
  intros Hinit Hsplit Hpre.
  destruct (init_inversion _ _ _ _ _ _ _ Hinit) as (_ & _ & base & ->).
  rewrite Hsplit.
  cbn [_openedUrl set_workingPath]. rewrite prepareSettings_openedUrl.
  cbn [_openedUrl _arguments set_arguments Create].
  rewrite processArguments_loop_skip by done.
  cbn [processArguments_loop String.eqb Ascii.eqb Bool.eqb].
  apply processArguments_loop_true.
Qed.

(** X4: after [prepareSettings] on a fresh launcher the app-data path ends with
    exactly the separator that was there or was added, and the executable
    path is either empty, together with the executable name, or ends with a
    separator. *)
Theorem prepareSettings_paths_normalised (argc : Z) (argv : list string) (w : W) :
  let L := prepareSettings (Create argc argv) w in
  let absolute := QDir_absolutePath w (writableLocation_AppDataLocation w) in
  endsWith (_appDataPath L) "/" = true
  /\ ((endsWith absolute "/" = true /\ _appDataPath L = absolute)
      \/ (endsWith absolute "/" = false /\ _appDataPath L = absolute +:+ "/"))
  /\ ((_executablePath L = "" /\ _executableName L = "")
      \/ endsWith (_executablePath L) "/" = true).
Proof.
  intros L absolute. split; [apply prepareSettings_appDataPath|]. split.
  - subst L. cbn. fold absolute. destruct (endsWith absolute "/"); auto.
  - subst L.
    change (_executablePath (prepareSettings ?L w))
      with (_executablePath (initExecutablePath L w)).
    change (_executableName (prepareSettings ?L w))
      with (_executableName (initExecutablePath L w)).
    destruct (initExecutablePath_cases (Create argc argv) w) as [->|Hends];
      [by left|by right].
Qed.

Lemma endsWith_append_data (base : string) : endsWith (base +:+ "data/") "/" = true.
Proof.
  change "data/" with ("data" +:+ "/").
  rewrite <- append_assoc. apply endsWith_append_char.
Qed.

(** X5: whenever [initWorkingPath] returns, the working path ends with a
    separator, also for an empty base, and the resolved directories and the
    opened URL are the ones it was given. *)
Theorem working_path_ends_with_separator
    (cfg : BuildConfig) (fuel : nat) (L L' : Launcher) (w w' : W) :
  initWorkingPath cfg fuel L w = Returns (L', w') ->
  endsWith (_workingPath L') "/" = true
  /\ _executablePath L' = _executablePath L
  /\ _appDataPath L' = _appDataPath L
  /\ _openedUrl L' = _openedUrl L.
Proof.
  unfold initWorkingPath.
  destruct (computeWorkingPathBase cfg fuel L w) as [[base w1]| | |];
    cbn [bind]; try done.
  intros [= <- <-]. cbn. split; [apply endsWith_append_data|done].
Qed.

(** X6: without a portable marker, a conventional Unix-like build and a
    Windows store build choose by build profile alone: the executable
    directory in debug, the app-data directory in release.  The file system
    is not touched. *)
Theorem debug_release_split
    (cfg : BuildConfig) (fuel : nat) (L : Launcher) (w : W) :
  QDir_exists w (_executablePath L +:+ "WalletForcePortable") = false ->
  (Q_OS_MAC cfg || Q_OS_LINUX cfg = true /\ OS_MAC_STORE cfg = false)
  \/ (Q_OS_MAC cfg || Q_OS_LINUX cfg = false /\ OS_WIN_STORE cfg = true) ->
  computeWorkingPathBase cfg fuel L w
  = Returns (if _DEBUG cfg then _executablePath L else _appDataPath L, w).
Proof.
  intros Hmarker Hcfg. unfold computeWorkingPathBase.
  rewrite (checkPortablePath_absent _ _ Hmarker). cbn [isEmpty negb].
  destruct Hcfg as [[-> ->]|[-> ->]]; by destruct (_DEBUG cfg).
Qed.

(** X7: the writability probe runs on conventional Windows builds only: with a
    portable marker, on a Unix-like build or on a Windows store build
    [computeWorkingPathBase] hands the world back as it got it, and needs no
    iteration budget. *)
Theorem only_conventional_windows_probes
    (cfg : BuildConfig) (fuel : nat) (L : Launcher) (w w' : W) (base : string) :
  computeWorkingPathBase cfg fuel L w = Returns (base, w') ->
  QDir_exists w (_executablePath L +:+ "WalletForcePortable") = true
  \/ Q_OS_MAC cfg || Q_OS_LINUX cfg = true
  \/ OS_WIN_STORE cfg = true ->
  w' = w /\ computeWorkingPathBase cfg 0 L w = Returns (base, w).
Proof.
  unfold computeWorkingPathBase, checkPortablePath. intros Hrun Hcase.
  destruct (QDir_exists w _).
  { rewrite isEmpty_append_char in *. cbn [negb] in *.
    by injection Hrun as <- <-. }
  cbn [isEmpty negb] in *.
  destruct (Q_OS_MAC cfg || Q_OS_LINUX cfg).
  { destruct (_DEBUG cfg && negb (OS_MAC_STORE cfg));
      by injection Hrun as <- <-. }
  destruct (OS_WIN_STORE cfg).
  { destruct (_DEBUG cfg); by injection Hrun as <- <-. }
  by destruct Hcase as [?|[?|?]].
Qed.

(** X8: on a conventional Windows build without a portable marker, a data
    directory next to the binary that holds [salt] keeps the data there: the
    base is the executable directory, for every iteration budget, and the
    world is untouched. *)
Theorem windows_salt_keeps_executable_directory
    (cfg : BuildConfig) (fuel : nat) (L : Launcher) (w : W) :
  Q_OS_MAC cfg || Q_OS_LINUX cfg = false ->
  OS_WIN_STORE cfg = false ->
  Q_OS_WIN cfg = true ->
  QDir_exists w (_executablePath L +:+ "WalletForcePortable") = false ->
  QDir_exists w (_executablePath L +:+ "data") = true ->
  QFileInfo_exists w ((_executablePath L +:+ "data") +:+ "/salt") = true ->
  computeWorkingPathBase cfg fuel L w = Returns (_executablePath L, w).
Proof.
  intros Hunix Hstore Hwin Hmarker Hdir Hsalt. unfold computeWorkingPathBase.
  rewrite (checkPortablePath_absent _ _ Hmarker). cbn [isEmpty negb].
  rewrite Hunix, Hstore, Hwin. unfold canWorkInExecutablePath.
  rewrite Hdir. cbn [negb]. by rewrite Hsalt.
Qed.

(** X9: when the data directory is missing and cannot be created, the probe
    answers [false] without trying any file, and a conventional Windows
    build without a portable marker falls back to the app-data directory. *)
Theorem mkpath_failure_falls_back
    (cfg : BuildConfig) (fuel : nat) (L : Launcher) (w w1 : W) :
  QDir_exists w (_executablePath L +:+ "data") = false ->
  QDir_mkpath w (_executablePath L +:+ "data") = (false, w1) ->
  canWorkInExecutablePath fuel L w = Returns (false, w1)
  /\ (Q_OS_MAC cfg || Q_OS_LINUX cfg = false ->
      OS_WIN_STORE cfg = false ->
      Q_OS_WIN cfg = true ->
      QDir_exists w (_executablePath L +:+ "WalletForcePortable") = false ->
      computeWorkingPathBase cfg fuel L w = Returns (_appDataPath L, w1)).
Proof.
  intros Hdir Hmk.
  assert (Hprobe : canWorkInExecutablePath fuel L w = Returns (false, w1)).
  { unfold canWorkInExecutablePath. rewrite Hdir. cbn [negb]. by rewrite Hmk. }
  split; [done|].
  intros Hunix Hstore Hwin Hmarker. unfold computeWorkingPathBase.
  rewrite (checkPortablePath_absent _ _ Hmarker). cbn [isEmpty negb].
  by rewrite Hunix, Hstore, Hwin, Hprobe.
Qed.

End MoreResolution.

(** ** The probe on the simulated file tree *)

Section MoreSimProbe.

Import Sim.

(** X14: installed where the user may not write: the data directory is missing
    and its parent is read-only.  The probe answers [false] and leaves the
    tree as it was, for every iteration budget. *)
Theorem read_only_parent_denies
    (fuel : nat) (L : Launcher) (w : world) :
  let d := _executablePath L +:+ "data" in
  nodes w !! d = None ->
  nodes w !! dirname d = Some (Dir false) ->
  canWorkInExecutablePath fuel L w = Returns (false, w).
Proof.
  intros d Hd Hparent.
  assert (Hsd : stat (nodes w) d = (d, None)) by by apply stat_not_link.
  assert (Hsp : stat (nodes w) (dirname d) = (dirname d, Some (Dir false)))
    by by apply stat_not_link.
  unfold canWorkInExecutablePath. fold d.
  cbn [QDir_exists QDir_mkpath QFileInfo_exists host].
  unfold is_dir at 1. rewrite Hsd. cbn [snd negb]. unfold mkpath.
  assert (Hmk : mkpath_go (String.length d) (nodes w) d = (false, nodes w)).
  { destruct (String.length d) as [|n]; cbn [mkpath_go];
      unfold is_dir at 1; rewrite Hsd; cbn [snd]; rewrite Hd; [done|].
    assert (Hpar : mkpath_go n (nodes w) (dirname d) = (true, nodes w)).
    { destruct n; cbn [mkpath_go]; unfold is_dir; by rewrite Hsp. }
    rewrite Hpar. unfold writable_dir. by rewrite Hsp. }
  rewrite Hmk. cbn [negb]. by rewrite set_nodes_id.
Qed.

End MoreSimProbe.

(** ** The further properties at concrete invocations *)

Section MoreInvocations.

Import Sim.

Lemma filtered_values_null_terminated_witness :
  (Z.to_nat (Filtered.count (Filtered.make 3 ["app"; "--"; "url"])) <= 1 < 2)%nat
  /\ Filtered.values (Filtered.make 3 ["app"; "--"; "url"]) !! 1%nat = Some None.
Proof.
  assert (Hi : (Z.to_nat (Filtered.count (Filtered.make 3 ["app"; "--"; "url"]))
                <= 1 < 2)%nat) by (vm_compute; lia).
  split; [exact Hi|].
  exact (proj2 (filtered_values_null_terminated 3 ["app"; "--"; "url"]) 1%nat Hi).
Defined.

Lemma readArguments_decodes_witness :
  0 <= 2
  /\ (Z.to_nat 2 <= length ["app"; "--"; "url"])%nat
  /\ readArguments (W := world) 2 ["app"; "--"; "url"] = Returns ["app"; "--"].
Proof.
  assert (Hargc : 0 <= 2) by lia.
  assert (Hlen : (Z.to_nat 2 <= length ["app"; "--"; "url"])%nat)
    by (vm_compute; lia).
  split; [exact Hargc|]. split; [exact Hlen|].
  exact (readArguments_decodes (W := world) 2 ["app"; "--"; "url"] Hargc Hlen).
Defined.

Lemma init_keeps_decoded_arguments_witness :
  let argv := ["app"; "--flag"; "--"; "tonwallet://pay/abc"] in
  let w := desktop installed in
  let L' := set_workingPath "/home/user/.local/share/Gram Wallet/data/"
              (prepareSettings (set_arguments argv (Create 4 argv)) w) in
  (Z.to_nat 4 <= length argv)%nat
  /\ init linux_release 0 (Create 4 argv) w = Returns (L', w)
  /\ _arguments L' = argv
  /\ (Z.to_nat (-1) <= length argv)%nat
  /\ init linux_release 0 (Create (-1) argv) w = ExpectsFailed.
Proof.
  intros argv w L'.
  assert (Hlen : (Z.to_nat 4 <= length argv)%nat) by (vm_compute; lia).
  assert (Hinit : init linux_release 0 (Create 4 argv) w = Returns (L', w))
    by (vm_compute; reflexivity).
  assert (Hlen' : (Z.to_nat (-1) <= length argv)%nat) by (vm_compute; lia).
  split; [exact Hlen|]. split; [exact Hinit|].
  destruct (proj2 (init_keeps_decoded_arguments linux_release 0 4 argv w Hlen)
              L' w Hinit) as (_ & _ & _ & Hargs).
  split; [exact Hargs|]. split; [exact Hlen'|].
  exact (proj1 (init_keeps_decoded_arguments linux_release 0 (-1) argv w Hlen')
           ltac:(lia)).
Defined.

Lemma init_opened_url_witness :
  let argv := ["app"; "--flag"; "--"; "tonwallet://pay/abc"] in
  let w := desktop installed in
  let L' := set_workingPath "/home/user/.local/share/Gram Wallet/data/"
              (prepareSettings (set_arguments argv (Create 4 argv)) w) in
  init linux_release 0 (Create 4 argv) w = Returns (L', w)
  /\ FromUtf8Safe <$> take (Z.to_nat 4) argv
     = ["app"; "--flag"] ++ "--" :: ["tonwallet://pay/abc"]
  /\ ("--" ∉ ["app"; "--flag"])
  /\ _openedUrl L' = "tonwallet://pay/abc".
Proof.
  intros argv w L'.
  assert (Hinit : init linux_release 0 (Create 4 argv) w = Returns (L', w))
    by (vm_compute; reflexivity).
  assert (Hsplit : FromUtf8Safe <$> take (Z.to_nat 4) argv
                   = ["app"; "--flag"] ++ "--" :: ["tonwallet://pay/abc"])
    by reflexivity.
  assert (Hpre : "--" ∉ ["app"; "--flag"])
    by (apply (bool_decide_unpack _); reflexivity).
  split; [exact Hinit|]. split; [exact Hsplit|]. split; [exact Hpre|].
  exact (init_opened_url linux_release 0 4 argv w w L' _ _ Hinit Hsplit Hpre).
Defined.

Lemma working_path_ends_with_separator_witness :
  let w := binary_deleted in
  let L' := set_workingPath "data/" (prepared w) in
  initWorkingPath linux_debug 0 (prepared w) w = Returns (L', w)
  /\ endsWith (_workingPath L') "/" = true.
Proof.
  intros w L'.
  assert (Hrun : initWorkingPath linux_debug 0 (prepared w) w = Returns (L', w))
    by (vm_compute; reflexivity).
  split; [exact Hrun|].
  exact (proj1 (working_path_ends_with_separator linux_debug 0 (prepared w) L'
                  w w Hrun)).
Defined.

Lemma debug_release_split_witness :
  let w := desktop installed in
  QDir_exists w (_executablePath (prepared w) +:+ "WalletForcePortable") = false
  /\ (Q_OS_MAC linux_debug || Q_OS_LINUX linux_debug = true
      /\ OS_MAC_STORE linux_debug = false)
  /\ computeWorkingPathBase linux_debug 0 (prepared w) w
     = Returns ("/opt/wallet/", w).
Proof.
  intros w.
  assert (Hmarker : QDir_exists w
            (_executablePath (prepared w) +:+ "WalletForcePortable") = false)
    by (vm_compute; reflexivity).
  assert (Hcfg : Q_OS_MAC linux_debug || Q_OS_LINUX linux_debug = true
                 /\ OS_MAC_STORE linux_debug = false) by (split; reflexivity).
  split; [exact Hmarker|]. split; [exact Hcfg|].
  exact (debug_release_split linux_debug 0 (prepared w) w Hmarker
           (or_introl Hcfg)).
Defined.

Lemma only_conventional_windows_probes_witness :
  let w := desktop installed in
  computeWorkingPathBase linux_release 5 (prepared w) w
  = Returns ("/home/user/.local/share/Gram Wallet/", w)
  /\ Q_OS_MAC linux_release || Q_OS_LINUX linux_release = true
  /\ computeWorkingPathBase linux_release 0 (prepared w) w
     = Returns ("/home/user/.local/share/Gram Wallet/", w).
Proof.
  intros w.
  assert (Hrun : computeWorkingPathBase linux_release 5 (prepared w) w
                 = Returns ("/home/user/.local/share/Gram Wallet/", w))
    by (vm_compute; reflexivity).
  assert (Hunix : Q_OS_MAC linux_release || Q_OS_LINUX linux_release = true)
    by reflexivity.
  split; [exact Hrun|]. split; [exact Hunix|].
  exact (proj2 (only_conventional_windows_probes linux_release 5 (prepared w)
                  w w _ Hrun (or_intror (or_introl Hunix)))).
Defined.

Lemma windows_salt_keeps_executable_directory_witness :
  Q_OS_MAC windows_release || Q_OS_LINUX windows_release = false
  /\ OS_WIN_STORE windows_release = false
  /\ Q_OS_WIN windows_release = true
  /\ QDir_exists salted
       (_executablePath (prepared salted) +:+ "WalletForcePortable") = false
  /\ QDir_exists salted (_executablePath (prepared salted) +:+ "data") = true
  /\ QFileInfo_exists salted
       ((_executablePath (prepared salted) +:+ "data") +:+ "/salt") = true
  /\ computeWorkingPathBase windows_release 0 (prepared salted) salted
     = Returns ("/opt/wallet/", salted).
Proof.
  assert (Hunix : Q_OS_MAC windows_release || Q_OS_LINUX windows_release = false)
    by reflexivity.
  assert (Hstore : OS_WIN_STORE windows_release = false) by reflexivity.
  assert (Hwin : Q_OS_WIN windows_release = true) by reflexivity.
  assert (Hmarker : QDir_exists salted
            (_executablePath (prepared salted) +:+ "WalletForcePortable") = false)
    by (vm_compute; reflexivity).
  assert (Hdir : QDir_exists salted
            (_executablePath (prepared salted) +:+ "data") = true)
    by (vm_compute; reflexivity).
  assert (Hsalt : QFileInfo_exists salted
            ((_executablePath (prepared salted) +:+ "data") +:+ "/salt") = true)
    by (vm_compute; reflexivity).
  split; [exact Hunix|]. split; [exact Hstore|]. split; [exact Hwin|].
  split; [exact Hmarker|]. split; [exact Hdir|]. split; [exact Hsalt|].
  exact (windows_salt_keeps_executable_directory windows_release 0
           (prepared salted) salted Hunix Hstore Hwin Hmarker Hdir Hsalt).
Defined.

Lemma mkpath_failure_falls_back_witness :
  let w := read_only_install in
  QDir_exists w (_executablePath (prepared w) +:+ "data") = false
  /\ QDir_mkpath w (_executablePath (prepared w) +:+ "data") = (false, w)
  /\ canWorkInExecutablePath 0 (prepared w) w = Returns (false, w)
  /\ computeWorkingPathBase windows_release 0 (prepared w) w
     = Returns ("/home/user/.local/share/Gram Wallet/", w).
Proof.
  intros w.
  assert (Hdir : QDir_exists w (_executablePath (prepared w) +:+ "data") = false)
    by (vm_compute; reflexivity).
  assert (Hmk : QDir_mkpath w (_executablePath (prepared w) +:+ "data") = (false, w))
    by (vm_compute; reflexivity).
  assert (Hmarker : QDir_exists w
            (_executablePath (prepared w) +:+ "WalletForcePortable") = false)
    by (vm_compute; reflexivity).
  split; [exact Hdir|]. split; [exact Hmk|].
  destruct (mkpath_failure_falls_back windows_release 0 (prepared w) w w Hdir Hmk)
    as [Hprobe Hbase].
  split; [exact Hprobe|].
  exact (Hbase eq_refl eq_refl eq_refl Hmarker).
Defined.

Lemma read_only_parent_denies_witness :
  let w := read_only_install in
  let d := _executablePath (prepared w) +:+ "data" in
  nodes w !! d = None
  /\ nodes w !! dirname d = Some (Dir false)
  /\ canWorkInExecutablePath 0 (prepared w) w = Returns (false, w).
Proof.
  intros w d.
  assert (Hd : nodes w !! d = None) by (vm_compute; reflexivity).
  assert (Hparent : nodes w !! dirname d = Some (Dir false))
    by (vm_compute; reflexivity).
  split; [exact Hd|]. split; [exact Hparent|].
  exact (read_only_parent_denies 0 (prepared w) w Hd Hparent).
Defined.

End MoreInvocations.
